(** * trolog: a leveled, structured logger

    A shallow embedding of the two source variants of the logger that the
    repository holds,

    - [TroLogger]: [src/logger.go] (package [troLogger]), and
    - [Trolog]: [src/unnamed/part_001] (package [trolog]),

    and the properties of the specification checked against them.

    Conventions of the embedding.

    - Go strings and byte slices are [string]s (sequences of 8-bit
      characters); [+:+] is concatenation.
    - [int] is a 64-bit integer and [int32] a 32-bit one, both carried by [Z]
      with the wrap-around written out ([wrap64], [wrap32]).
    - [float64] is IEEE-754 binary64, carried by the Standard Library's
      [spec_float] with its correctly rounded operations.
    - A run-time panic is the [Panic] case of [outcome].
    - Loggers and their field maps live in a heap ([State]); sinks are
      handles and every [Write] call is recorded, in order, in [written].
    - The mutex is not modelled: calls are executed one after the other, and
      the sequence counter is advanced by the single step [atomic_AddInt32].
    - What the run time chooses during one call (the clock reading and the
      iteration order of every [range] over a map) is the [Env] argument. *)

From Stdlib Require Import ZArith Ascii String.
From Stdlib Require Import Decimal DecimalString.
From Stdlib Require DecimalFacts DecimalPos DecimalZ.
From Stdlib Require Import Floats.SpecFloat.
From stdpp Require Import gmap strings list fin_maps.

Local Open Scope Z_scope.

(** ** Outcomes: a value or a run-time panic *)

Inductive fault : Set :=
| IndexOutOfRange   (* index out of range on an array or a slice *)
| TypeAssertion     (* x.(T) on a value of another dynamic type *)
| NilDereference    (* method call through a pointer that holds no Logger *)
| OutOfFuel.        (* the model's loop bound was reached; never happens,
                       see [intToString_terminates] *)

Inductive outcome (A : Type) : Type :=
| Ok (a : A)
| Panic (f : fault).
Arguments Ok {A} a.
Arguments Panic {A} f.

Global Instance outcome_ret : MRet outcome := fun A a => Ok a.
Global Instance outcome_bind : MBind outcome := fun A B k r =>
  match r with
  | Ok a => k a
  | Panic f => Panic f
  end.

(** ** Characters and escape codes *)

Definition ESC : ascii := "027"%char.
Definition LF : ascii := "010"%char.
Definition quote : ascii := "034"%char.

Definition newline : string := String LF "".
Definition reset : string := String ESC "[0m".

(** [has_esc s]: the byte 0x1B occurs in [s]. *)
Fixpoint has_esc (s : string) : bool :=
  match s with
  | EmptyString => false
  | String c r => Ascii.eqb c ESC || has_esc r
  end.

(** ** Machine integers *)

Definition wrap32 (z : Z) : Z := (z + 2 ^ 31) mod 2 ^ 32 - 2 ^ 31.
Definition wrap64 (z : Z) : Z := (z + 2 ^ 63) mod 2 ^ 64 - 2 ^ 63.
Definition MinInt64 : Z := - 2 ^ 63.
Definition MaxInt64 : Z := 2 ^ 63 - 1.
Definition MinInt32 : Z := - 2 ^ 31.
Definition MaxInt32 : Z := 2 ^ 31 - 1.

Definition is_int32 (z : Z) : Prop := MinInt32 <= z <= MaxInt32.
Definition is_int (z : Z) : Prop := MinInt64 <= z <= MaxInt64.

(** [byte(z)]: conversion of an integer to a byte keeps the low eight bits. *)
Definition byte_of_Z (z : Z) : ascii := ascii_of_N (Z.to_N (z mod 256)).

(** [string(b)] for a byte [b]: the conversion of an integer to a string
    yields the UTF-8 encoding of the code point of that value, one byte
    below 0x80 and two bytes from 0x80 to 0xFF. *)
Definition string_of_byte (b : ascii) : string :=
  let n := nat_of_ascii b in
  if (n <? 128)%nat then String b ""
  else String (ascii_of_nat (192 + n / 64)) (String (ascii_of_nat (128 + n mod 64)) "").

(** [strconv.Itoa] and [strconv.AppendInt(_, _, 10)] of Go's library: the
    decimal representation of an integer, here the Standard Library's. *)
Definition Itoa (i : Z) : string := NilZero.string_of_int (Z.to_int i).

(** ** float64 *)

Definition float64 : Set := spec_float.

Definition f64_sub : float64 -> float64 -> float64 := SFsub 53 1024.
Definition f64_mul : float64 -> float64 -> float64 := SFmul 53 1024.
Definition f64_div : float64 -> float64 -> float64 := SFdiv 53 1024.
Definition f64_eqb : float64 -> float64 -> bool := SFeqb.

(** [float64(z)] for an integer [z]: the nearest binary64 number. *)
Definition float64_of_int (z : Z) : float64 := binary_normalize 53 1024 z 0 false.

(** The decimal literal [n / 10^k] as the compiler reads it: the nearest
    binary64 number (division of two exact numbers is correctly rounded). *)
Definition f64_lit (n : Z) (k : nat) : float64 :=
  f64_div (float64_of_int n) (float64_of_int (10 ^ Z.of_nat k)).

(** [int(f)]: the fraction is discarded (truncation towards zero).  Go
    leaves the result open when the value does not fit; amd64 yields the
    smallest integer then, also for NaN and the infinities. *)
Definition int_of_float64 (f : float64) : Z :=
  match f with
  | S754_zero _ => 0
  | S754_finite s m e =>
      let mag := if 0 <=? e then Z.pos m * 2 ^ e else Z.pos m / 2 ^ (- e) in
      let v := if s then - mag else mag in
      if (MinInt64 <=? v) && (v <=? MaxInt64) then v else MinInt64
  | _ => MinInt64
  end.

(** ** Values of type [interface{}] *)

Inductive Value : Set :=
| VString (s : string)
| VInt (i : Z)
| VFloat (f : float64)
| VBool (b : bool)
| VOther.           (* a value of any other dynamic type, nil included *)

(** ** Log levels *)

Inductive LogLevel : Set :=
| DebugLevel
| InfoLevel
| WarnLevel
| ErrorLevel
| PanicLevel
| TraceLevel.

Global Instance LogLevel_eq_dec : EqDecision LogLevel.
Proof. solve_decision. Defined.

(** The integer behind a level ([iota]). *)
Definition rank (l : LogLevel) : Z :=
  match l with
  | DebugLevel => 0
  | InfoLevel => 1
  | WarnLevel => 2
  | ErrorLevel => 3
  | PanicLevel => 4
  | TraceLevel => 5
  end.

Definition logLevelStrings : list string :=
  ["DEBU"; "INFO"; "WARN"; "ERRO"; "PANI"; "TRAC"; "UNKNOWN"].

(** [logLevelStrings[level]] *)
Definition levelString (level : LogLevel) : string :=
  default "" (logLevelStrings !! Z.to_nat (rank level)).

(** getColor returns the ANSI color code for a given log level *)
Definition getColor (level : LogLevel) : string :=
  match level with
  | DebugLevel => String ESC "[36m"
  | InfoLevel => String ESC "[32m"
  | WarnLevel => String ESC "[33m"
  | ErrorLevel => String ESC "[31m"
  | _ => String ESC "[0m"
  end.

(** ** Iteration over a map

    Go does not fix the order in which [range] visits a map, and the order
    may change from one loop to the next.  The run time's choice is a
    [list nat]: at every step the entry at position [n mod (entries left)]
    of the entries not yet visited comes next.  Every such choice visits each
    entry once ([shuffle_Permutation]) and every order is the result of some
    choice ([shuffle_complete]). *)

Fixpoint shuffle_from {A : Type} (fuel : nat) (choice : list nat) (l : list A) : list A :=
  match fuel with
  | O => []
  | S fuel' =>
      let i := (hd 0%nat choice `mod` length l)%nat in
      match l !! i with
      | Some x => x :: shuffle_from fuel' (tl choice) (delete i l)
      | None => []
      end
  end.

Definition shuffle {A : Type} (choice : list nat) (l : list A) : list A :=
  shuffle_from (length l) choice l.

Definition range (choice : list nat) (m : gmap string string) : list (string * string) :=
  shuffle choice (map_to_list m).

(** ** The heap, the sinks and the process-wide state *)

Definition loc : Set := positive.
Definition Writer : Set := nat.     (* an io.Writer, by identity *)
Definition File : Set := nat.       (* an open *os.File, by identity *)

Module Logger.
Record t : Set := mk {
  level : LogLevel;
  output : Writer;
  file : option File;       (* None is the nil pointer *)
  colored : bool;
  fields : loc              (* the map[string]string, by reference *)
}.
End Logger.
Abbreviation Logger := Logger.t.

(** One call of [Write] on a sink. *)
Inductive Written : Set :=
| ToOutput (w : Writer) (p : string)
| ToFile (f : File) (p : string).

Record State : Type := mkState {
  logIDCounter : Z;                          (* var logIDCounter int32 *)
  bufferPool : list string;                  (* buffers put back, with their bytes *)
  loggers : gmap loc Logger;                 (* the Logger structs *)
  maps : gmap loc (gmap string string);      (* the field maps *)
  written : list Written                     (* writes so far, oldest first *)
}.

(** What the run time chooses during one emission. *)
Record Env : Set := mkEnv {
  time_Now : string;               (* time.Now().Format(time.RFC3339) *)
  order_fields : list nat;         (* range l.fields in log *)
  order_extra : list nat;          (* range extraFields in log *)
  order_file_fields : list nat;    (* range fields in buildLogMessage *)
  order_file_extra : list nat      (* range extraFields in buildLogMessage *)
}.

(** [atomic.AddInt32(&logIDCounter, delta)]: one indivisible step that adds
    and returns the new value. *)
Definition atomic_AddInt32 (delta : Z) (st : State) : Z * State :=
  let v := wrap32 (logIDCounter st + delta) in
  (v, mkState v (bufferPool st) (loggers st) (maps st) (written st)).

(** [bufferPool.Get()]: a buffer put back earlier, or a new empty one. *)
Definition bufferPool_Get (st : State) : string * State :=
  match bufferPool st with
  | b :: rest => (b, mkState (logIDCounter st) rest (loggers st) (maps st) (written st))
  | [] => (EmptyString, st)
  end.

Definition bufferPool_Put (b : string) (st : State) : State :=
  mkState (logIDCounter st) (b :: bufferPool st) (loggers st) (maps st) (written st).

(** [sink.Write(p)]; errors are discarded by every caller. *)
Definition Write (w : Written) (st : State) : State :=
  mkState (logIDCounter st) (bufferPool st) (loggers st) (maps st) (written st ++ [w]).

(** [*l] *)
Definition deref (l : loc) (st : State) : outcome Logger :=
  match loggers st !! l with
  | Some L => Ok L
  | None => Panic NilDereference
  end.

(** The entries of the map at [p]; a nil map reads as empty.  NewLogger and
    AddField give every logger a map of its own, and the statements about a
    logger's fields are for such loggers (they assume that the map is
    allocated); a Logger struct with a nil map is outside them. *)
Definition read_map (p : loc) (st : State) : gmap string string :=
  default ∅ (maps st !! p).

(** [new(T)] / [make(map...)]: an address not in use. *)
Definition alloc_logger (L : Logger) (st : State) : loc * State :=
  let p := fresh (dom (loggers st)) in
  (p, mkState (logIDCounter st) (bufferPool st) (<[p := L]> (loggers st)) (maps st) (written st)).

Definition make_map (st : State) : loc * State :=
  let p := fresh (dom (maps st)) in
  (p, mkState (logIDCounter st) (bufferPool st) (loggers st) (<[p := ∅]> (maps st)) (written st)).

(** [m[key] = value] on the map at [p]. *)
Definition map_store (p : loc) (key value : string) (st : State) : State :=
  mkState (logIDCounter st) (bufferPool st) (loggers st)
          (<[p := <[key := value]> (read_map p st)]> (maps st)) (written st).

(** The body shared by the four [range] loops of a rendering:
    [' ' key ':' ' ' '"' value '"'] appended to the buffer. *)
Definition append_field (buf : string) (kv : string * string) : string :=
  let buf := buf +:+ " " in
  let buf := buf +:+ kv.1 in
  let buf := buf +:+ ":" in
  let buf := buf +:+ " " in
  let buf := buf +:+ String quote "" in
  let buf := buf +:+ kv.2 in
  let buf := buf +:+ String quote "" in
  buf.

(** [args[argIndex]] *)
Definition index_arg (args : list Value) (argIndex : nat) : outcome Value :=
  match args !! argIndex with
  | Some a => Ok a
  | None => Panic IndexOutOfRange
  end.

(** [v.(string)], [v.(int)], [v.(float64)] *)
Definition assert_string (v : Value) : outcome string :=
  match v with VString s => Ok s | _ => Panic TypeAssertion end.
Definition assert_int (v : Value) : outcome Z :=
  match v with VInt i => Ok i | _ => Panic TypeAssertion end.
Definition assert_float64 (v : Value) : outcome float64 :=
  match v with VFloat f => Ok f | _ => Panic TypeAssertion end.

(** * The variant of [src/unnamed/part_001] (package trolog) *)

Module Trolog.

(** Convert string to LogLevel *)
Definition logLevelFromString (levelStr : string) : LogLevel :=
  if String.eqb levelStr "debug" then DebugLevel
  else if String.eqb levelStr "info" then InfoLevel
  else if String.eqb levelStr "warn" then WarnLevel
  else if String.eqb levelStr "error" then ErrorLevel
  else if String.eqb levelStr "panic" then PanicLevel
  else if String.eqb levelStr "trace" then TraceLevel
  else InfoLevel.

(** NewLogger initializes a new logger instance using string for level.
    [os_OpenFile] is the outcome of opening the path: the file, or [None]
    for an error, after which the logger goes without a file. *)
Definition NewLogger (levelStr : string) (output : Writer) (colored : bool)
    (logFilePath : string) (os_OpenFile : string -> option File) (st : State) : loc * State :=
  let level := logLevelFromString levelStr in
  let logFile :=
    if negb (String.eqb logFilePath "") then os_OpenFile logFilePath else None in
  let '(fields, st) := make_map st in
  alloc_logger (Logger.mk level output logFile colored fields) st.

(** floatToString converts a float64 to a string *)
Definition floatToString (f : float64) : string :=
  if f64_eqb f (S754_zero false) then "0.00"
  else
    let result := "" in
    let integerPart := int_of_float64 f in
    let decimalPart :=
      int_of_float64 (f64_mul (f64_sub f (float64_of_int integerPart)) (float64_of_int 100)) in
    let result := result +:+ Itoa integerPart in
    let result := result +:+ "." in
    let result := if decimalPart <? 10 then result +:+ "0" else result in
    let result := result +:+ Itoa decimalPart in
    result.

(** valueToString converts various types to a string representation *)
Definition valueToString (value : Value) : string :=
  match value with
  | VString v => v
  | VInt v => Itoa v
  | VFloat v => floatToString v
  | VBool v => if v then "true" else "false"
  | VOther => "unknown"
  end.

(** buildLogMessage constructs a log message for writing to file *)
Definition buildLogMessage (level : LogLevel) (timestamp message : string)
    (fields extraFields : gmap string string) (colored : bool) (logID : Z)
    (env : Env) : string :=
  let logBuf := "" in
  let logBuf := logBuf +:+ "ID:" in
  let logBuf := logBuf +:+ Itoa logID in
  let logBuf := logBuf +:+ " " in
  let logBuf :=
    if colored then
      let logBuf := logBuf +:+ getColor level in
      let logBuf := logBuf +:+ levelString level in
      logBuf +:+ reset
    else logBuf +:+ levelString level in
  let logBuf := logBuf +:+ " " in
  let logBuf := logBuf +:+ timestamp in
  let logBuf := logBuf +:+ " " in
  let logBuf := logBuf +:+ message in
  let logBuf :=
    if (0 <? size fields)%nat || (0 <? size extraFields)%nat
    then logBuf +:+ "," else logBuf in
  let logBuf := fold_left append_field (range (order_file_fields env) fields) logBuf in
  let logBuf := fold_left append_field (range (order_file_extra env) extraFields) logBuf in
  let logBuf := logBuf +:+ newline in
  logBuf.

(** log handles core logging logic and minimizes allocations *)
Definition log (l : loc) (level : LogLevel) (message : string)
    (extraFields : gmap string string) (env : Env) (st : State) : outcome State :=
  let '(logID, st) := atomic_AddInt32 1 st in
  let '(buf, st) := bufferPool_Get st in
  let buf := "" in                                   (* ( *buf)[:0] *)
  let timestamp := time_Now env in
  let buf := buf +:+ "ID:" in
  let buf := buf +:+ Itoa logID in
  let buf := buf +:+ " " in
  let buf :=
    if bool_decide (level = DebugLevel) || bool_decide (level = InfoLevel) then
      let buf := buf +:+ getColor level in
      let buf := buf +:+ levelString level in
      buf +:+ reset
    else
      let buf := buf +:+ getColor level in
      buf +:+ levelString level in
  let buf := buf +:+ " " in
  let buf := buf +:+ timestamp in
  let buf := buf +:+ " " in
  let buf := buf +:+ message in
  L ← deref l st;
  let fields := read_map (Logger.fields L) st in
  let buf :=
    if (0 <? size fields)%nat || (0 <? size extraFields)%nat
    then buf +:+ "," else buf in
  let buf := fold_left append_field (range (order_fields env) fields) buf in
  let buf := fold_left append_field (range (order_extra env) extraFields) buf in
  let buf := buf +:+ newline in
  let st :=
    match Logger.file L with
    | Some file =>
        let logMessage :=
          buildLogMessage level timestamp message fields extraFields false logID env in
        Write (ToFile file logMessage) st
    | None => st
    end in
  let st :=
    if rank (Logger.level L) <=? rank level then
      let st := Write (ToOutput (Logger.output L) buf) st in
      if (bool_decide (level = WarnLevel) || bool_decide (level = ErrorLevel))
         && Logger.colored L
      then Write (ToOutput (Logger.output L) reset) st
      else st
    else st in
  Ok (bufferPool_Put buf st).                        (* the deferred Put *)

(** AddField adds a field to the logger and returns a new logger instance.
    [order] is the run time's order for [range l.fields]. *)
Definition AddField (l : loc) (key : string) (value : Value) (order : list nat)
    (st : State) : outcome (loc * State) :=
  L ← deref l st;
  let '(fields, st) := make_map st in
  let '(newLogger, st) :=
    alloc_logger
      (Logger.mk (Logger.level L) (Logger.output L) (Logger.file L) (Logger.colored L) fields)
      st in
  let st :=
    fold_left (fun st kv => map_store fields kv.1 kv.2 st)
              (range order (read_map (Logger.fields L) st)) st in
  let st := map_store fields key (valueToString value) st in
  Ok (newLogger, st).

(** Log methods for different levels *)
Definition Info (l : loc) (message : string) := log l InfoLevel message ∅.
Definition Warn (l : loc) (message : string) := log l WarnLevel message ∅.
Definition Error (l : loc) (message : string) := log l ErrorLevel message ∅.
Definition Panic_ (l : loc) (message : string) := log l PanicLevel message ∅.
Definition Debug (l : loc) (message : string) := log l DebugLevel message ∅.
Definition Trace (l : loc) (message : string) := log l TraceLevel message ∅.

(** formatMessage is a custom implementation of string formatting.  The
    loop over [i] is a recursion on the part of [format] from [i] on;
    [i+1 < len(format)] says that this part has a second character. *)
Fixpoint formatMessage_loop (format : string) (args : list Value) (argIndex : nat)
    (result : string) : outcome string :=
  match format with
  | EmptyString => Ok result
  | String c rest =>
      match Ascii.eqb c "%", rest with
      | true, String next rest' =>
          if Ascii.eqb next "s" then
            a ← index_arg args argIndex;
            formatMessage_loop rest' args (S argIndex) (result +:+ valueToString a)
          else if Ascii.eqb next "d" then
            a ← index_arg args argIndex;
            i ← assert_int a;
            formatMessage_loop rest' args (S argIndex) (result +:+ Itoa i)
          else if Ascii.eqb next "f" then
            a ← index_arg args argIndex;
            f ← assert_float64 a;
            formatMessage_loop rest' args (S argIndex) (result +:+ floatToString f)
          else
            formatMessage_loop rest args argIndex result
      | _, _ => formatMessage_loop rest args argIndex (result +:+ string_of_byte c)
      end
  end.

Definition formatMessage (format : string) (args : list Value) : outcome string :=
  formatMessage_loop format args 0%nat "".

(** Log methods that format the message first *)
Definition logf (level : LogLevel) (l : loc) (format : string) (args : list Value)
    (env : Env) (st : State) : outcome State :=
  message ← formatMessage format args;
  log l level message ∅ env st.

Definition Infof := logf InfoLevel.
Definition Debugf := logf DebugLevel.
Definition Warnf := logf WarnLevel.
Definition Errorf := logf ErrorLevel.
Definition Panicf := logf PanicLevel.
Definition Tracef := logf TraceLevel.

End Trolog.

(** * The variant of [src/logger.go] (package troLogger) *)

Module TroLogger.

(** An error value of [os.OpenFile]. *)
Inductive error : Set :=
| PathError (path : string).

(** NewLogger initializes a new logger instance; an error of
    [os.OpenFile] is returned and no logger is made. *)
Definition NewLogger (level : LogLevel) (output : Writer) (colored : bool)
    (logFilePath : string) (os_OpenFile : string -> option File) (st : State)
    : (option loc * option error) * State :=
  let opened :=
    if negb (String.eqb logFilePath "")
    then match os_OpenFile logFilePath with
         | Some f => inl (Some f)
         | None => inr (PathError logFilePath)
         end
    else inl None in
  match opened with
  | inr err => ((None, Some err), st)
  | inl logFile =>
      let '(fields, st) := make_map st in
      let '(l, st) := alloc_logger (Logger.mk level output logFile colored fields) st in
      ((Some l, None), st)
  end.

(** [buf[n] = c] on an array: the index is checked. *)
Definition array_store (buf : list ascii) (n : nat) (c : ascii) : outcome (list ascii) :=
  if (n <? length buf)%nat then Ok (<[n := c]> buf) else Panic IndexOutOfRange.

(** [buf[n]] *)
Definition array_load (buf : list ascii) (n : nat) : outcome ascii :=
  match buf !! n with
  | Some c => Ok c
  | None => Panic IndexOutOfRange
  end.

(** [for i > 0 { buf[n] = byte('0' + i%10); i /= 10; n++ }] *)
Fixpoint intToString_digits (fuel : nat) (i : Z) (n : nat) (buf : list ascii)
    : outcome (nat * list ascii) :=
  if 0 <? i then
    match fuel with
    | O => Panic OutOfFuel
    | S fuel' =>
        buf ← array_store buf n (byte_of_Z (48 + Z.rem i 10));
        intToString_digits fuel' (Z.quot i 10) (S n) buf
    end
  else Ok (n, buf).

(** [for j := 0; j < n/2; j++ { buf[j], buf[n-j-1] = buf[n-j-1], buf[j] }],
    with [count] iterations left. *)
Fixpoint intToString_reverse (count : nat) (j n : nat) (buf : list ascii)
    : outcome (list ascii) :=
  match count with
  | O => Ok buf
  | S count' =>
      x ← array_load buf (n - j - 1);
      y ← array_load buf j;
      buf ← array_store buf j x;
      buf ← array_store buf (n - j - 1) y;
      intToString_reverse count' (S j) n buf
  end.

(** intToString converts an integer to a string. *)
Definition intToString (i : Z) : outcome string :=
  if i =? 0 then Ok "0"
  else
    let buf := replicate 10 "000"%char in            (* var buf [10]byte *)
    let n := 0%nat in
    let negative := i <? 0 in
    let i := if i <? 0 then wrap64 (- i) else i in
    '(n, buf) ← intToString_digits 64 i n buf;
    '(n, buf) ← (if negative
                 then buf ← array_store buf n "-"%char; Ok (S n, buf)
                 else Ok (n, buf));
    buf ← intToString_reverse (n / 2) 0 n buf;
    Ok (string_of_list_ascii (take n buf)).          (* buf[:n] *)

(** floatToString converts a float64 to a string *)
Definition floatToString (f : float64) : outcome string :=
  if f64_eqb f (S754_zero false) then Ok "0.00"
  else
    let result := "" in
    let integerPart := int_of_float64 f in
    let decimalPart :=
      int_of_float64 (f64_mul (f64_sub f (float64_of_int integerPart)) (float64_of_int 100)) in
    s ← intToString integerPart;
    let result := result +:+ s in
    let result := result +:+ "." in
    let result := if decimalPart <? 10 then result +:+ "0" else result in
    s ← intToString decimalPart;
    let result := result +:+ s in
    Ok result.

(** valueToString converts various types to a string representation *)
Definition valueToString (value : Value) : outcome string :=
  match value with
  | VString v => Ok v
  | VInt v => intToString v
  | VFloat v => floatToString v
  | VBool v => Ok (if v then "true" else "false")
  | VOther => Ok "unknown"
  end.

(** buildLogMessage constructs a log message for writing to file *)
Definition buildLogMessage (level : LogLevel) (timestamp message : string)
    (fields extraFields : gmap string string) (colored : bool) (logID : Z)
    (env : Env) : string :=
  let logBuf := "" in
  let logBuf :=
    if colored then
      let logBuf := logBuf +:+ getColor level in
      let logBuf := logBuf +:+ levelString level in
      logBuf +:+ reset
    else logBuf +:+ levelString level in
  let logBuf := logBuf +:+ " " in
  let logBuf := logBuf +:+ timestamp in
  let logBuf := logBuf +:+ " " in
  let logBuf := logBuf +:+ "ID:" in
  let logBuf := logBuf +:+ Itoa logID in
  let logBuf := logBuf +:+ " " in
  let logBuf := logBuf +:+ message in
  let logBuf :=
    if (0 <? size fields)%nat || (0 <? size extraFields)%nat
    then logBuf +:+ "," else logBuf in
  let logBuf := fold_left append_field (range (order_file_fields env) fields) logBuf in
  let logBuf := fold_left append_field (range (order_file_extra env) extraFields) logBuf in
  let logBuf := logBuf +:+ newline in
  logBuf.

(** log handles core logging logic and minimizes allocations *)
Definition log (l : loc) (level : LogLevel) (message : string)
    (extraFields : gmap string string) (env : Env) (st : State) : outcome State :=
  let '(logID, st) := atomic_AddInt32 1 st in
  let '(buf, st) := bufferPool_Get st in
  let buf := "" in                                   (* ( *buf)[:0] *)
  let timestamp := time_Now env in
  let buf :=
    if bool_decide (level = DebugLevel) || bool_decide (level = InfoLevel) then
      let buf := buf +:+ getColor level in
      let buf := buf +:+ levelString level in
      buf +:+ reset
    else
      let buf := buf +:+ getColor level in
      buf +:+ levelString level in
  let buf := buf +:+ " " in
  let buf := buf +:+ timestamp in
  let buf := buf +:+ " " in
  let buf := buf +:+ "ID:" in
  let buf := buf +:+ Itoa logID in
  let buf := buf +:+ " " in
  let buf := buf +:+ message in
  L ← deref l st;
  let fields := read_map (Logger.fields L) st in
  let buf :=
    if (0 <? size fields)%nat || (0 <? size extraFields)%nat
    then buf +:+ "," else buf in
  let buf := fold_left append_field (range (order_fields env) fields) buf in
  let buf := fold_left append_field (range (order_extra env) extraFields) buf in
  let buf := buf +:+ newline in
  let st :=
    match Logger.file L with
    | Some file =>
        let logMessage :=
          buildLogMessage level timestamp message fields extraFields false logID env in
        Write (ToFile file logMessage) st
    | None => st
    end in
  let st :=
    if rank (Logger.level L) <=? rank level then
      let st := Write (ToOutput (Logger.output L) buf) st in
      if (bool_decide (level = WarnLevel) || bool_decide (level = ErrorLevel))
         && Logger.colored L
      then Write (ToOutput (Logger.output L) reset) st
      else st
    else st in
  Ok (bufferPool_Put buf st).                        (* the deferred Put *)

(** AddField adds a field to the logger and returns a new logger instance.
    [order] is the run time's order for [range l.fields]. *)
Definition AddField (l : loc) (key : string) (value : Value) (order : list nat)
    (st : State) : outcome (loc * State) :=
  L ← deref l st;
  let '(fields, st) := make_map st in
  let '(newLogger, st) :=
    alloc_logger
      (Logger.mk (Logger.level L) (Logger.output L) (Logger.file L) (Logger.colored L) fields)
      st in
  let st :=
    fold_left (fun st kv => map_store fields kv.1 kv.2 st)
              (range order (read_map (Logger.fields L) st)) st in
  s ← valueToString value;
  let st := map_store fields key s st in
  Ok (newLogger, st).

(** Log methods for different levels *)
Definition Info (l : loc) (message : string) := log l InfoLevel message ∅.
Definition Warn (l : loc) (message : string) := log l WarnLevel message ∅.
Definition Error (l : loc) (message : string) := log l ErrorLevel message ∅.
Definition Debug (l : loc) (message : string) := log l DebugLevel message ∅.
Definition Panic_ (l : loc) (message : string) := log l PanicLevel message ∅.
Definition Trace (l : loc) (message : string) := log l TraceLevel message ∅.

(** formatMessage formats a string using placeholders ('%s' for strings and
    '%d' for integers) by replacing them with corresponding values from
    args, returning the final formatted string.  The loop over [i] is a
    recursion on the part of [format] from [i] on. *)
Fixpoint formatMessage_loop (format : string) (args : list Value) (argIndex : nat)
    (result : string) : outcome string :=
  match format with
  | EmptyString => Ok result
  | String c rest =>
      match Ascii.eqb c "%", rest with
      | true, String nextChar rest' =>
          if Ascii.eqb nextChar "s" then
            a ← index_arg args argIndex;
            s ← assert_string a;
            formatMessage_loop rest' args (S argIndex) (result +:+ s)
          else if Ascii.eqb nextChar "d" then
            a ← index_arg args argIndex;
            i ← assert_int a;
            s ← intToString i;
            formatMessage_loop rest' args (S argIndex) (result +:+ s)
          else
            formatMessage_loop rest' args argIndex result
      | _, _ => formatMessage_loop rest args argIndex (result +:+ String c "")
      end
  end.

Definition formatMessage (format : string) (args : list Value) : outcome string :=
  formatMessage_loop format args 0%nat "".

(** Log methods for various levels that format messages using a format
    string and arguments *)
Definition logf (level : LogLevel) (l : loc) (format : string) (args : list Value)
    (env : Env) (st : State) : outcome State :=
  message ← formatMessage format args;
  log l level message ∅ env st.

Definition Infof := logf InfoLevel.
Definition Warnf := logf WarnLevel.
Definition Errorf := logf ErrorLevel.
Definition Debugf := logf DebugLevel.
Definition Panicf := logf PanicLevel.
Definition Tracef := logf TraceLevel.

End TroLogger.

(** * Definitions of the specification *)

(** ** Removing ANSI escape sequences

    An escape sequence is ESC, '[', then parameter and intermediate bytes, up
    to and including a final byte in the range 0x40..0x7E.  [in_seq] says
    that the text is read from inside such a sequence. *)

Definition is_final_byte (c : ascii) : bool :=
  (64 <=? nat_of_ascii c)%nat && (nat_of_ascii c <=? 126)%nat.

Fixpoint strip_ansi_from (in_seq : bool) (s : string) : string :=
  match s with
  | EmptyString => EmptyString
  | String c r =>
      if in_seq then
        strip_ansi_from (negb (is_final_byte c)) r
      else if Ascii.eqb c ESC then
        match r with
        | String "[" r' => strip_ansi_from true r'
        | _ => String c (strip_ansi_from false r)
        end
      else String c (strip_ansi_from false r)
  end.

Definition strip_ansi (s : string) : string := strip_ansi_from false s.

(** ** The layout of a line *)

(** One field: [ key: "value"]. *)
Definition field_text (kv : string * string) : string :=
  " " +:+ kv.1 +:+ ":" +:+ " " +:+ String quote "" +:+ kv.2 +:+ String quote "".

Definition fields_text (kvs : list (string * string)) : string :=
  foldr (fun kv rest => field_text kv +:+ rest) "" kvs.

(** The comma that precedes the fields, when there is any field. *)
Definition comma (fields extraFields : gmap string string) : string :=
  if (0 <? size fields)%nat || (0 <? size extraFields)%nat then "," else "".

(** The level code on the console: colored, and closed by a reset for Debug
    and Info only. *)
Definition console_level (level : LogLevel) : string :=
  if bool_decide (level = DebugLevel) || bool_decide (level = InfoLevel)
  then getColor level +:+ levelString level +:+ reset
  else getColor level +:+ levelString level.

(** [ID:<sequenceID> <LEVEL4> <RFC3339> <message><fields>\n], the layout of
    part_001, with [lvl] the level code in its plain or colored form and
    [kvs] the fields in the order they are listed. *)
Definition id_first_line (logID : Z) (lvl timestamp message punct : string)
    (kvs : list (string * string)) : string :=
  "ID:" +:+ Itoa logID +:+ " " +:+ lvl +:+ " " +:+ timestamp +:+ " " +:+ message
    +:+ punct +:+ fields_text kvs +:+ newline.

(** [<LEVEL4> <RFC3339> ID:<sequenceID> <message><fields>\n], the layout of
    logger.go. *)
Definition level_first_line (logID : Z) (lvl timestamp message punct : string)
    (kvs : list (string * string)) : string :=
  lvl +:+ " " +:+ timestamp +:+ " " +:+ "ID:" +:+ Itoa logID +:+ " " +:+ message
    +:+ punct +:+ fields_text kvs +:+ newline.

(** The fields of a record in the order the console line lists them, and in
    the order the file line lists them. *)
Definition console_fields (fields extraFields : gmap string string) (env : Env)
    : list (string * string) :=
  range (order_fields env) fields ++ range (order_extra env) extraFields.

Definition file_fields (fields extraFields : gmap string string) (env : Env)
    : list (string * string) :=
  range (order_file_fields env) fields ++ range (order_file_extra env) extraFields.

(** The text of a record holds no ESC byte of its own. *)
Definition plain_map (m : gmap string string) : Prop :=
  map_Forall (fun k v => has_esc k = false /\ has_esc v = false) m.

Definition plain_record (timestamp message : string)
    (fields extraFields : gmap string string) : Prop :=
  has_esc timestamp = false /\ has_esc message = false /\
  plain_map fields /\ plain_map extraFields.

(** ** What one emission appends to the sinks *)

(** The write to the file, when there is one. *)
Definition file_part (L : Logger) (line : string) : list Written :=
  match Logger.file L with
  | Some f => [ToFile f line]
  | None => []
  end.

(** The writes to the primary sink: the line, and a reset after it for Warn
    and Error on a colored logger; nothing below the minimum level. *)
Definition console_part (L : Logger) (level : LogLevel) (line : string) : list Written :=
  if rank (Logger.level L) <=? rank level then
    ToOutput (Logger.output L) line ::
      (if (bool_decide (level = WarnLevel) || bool_decide (level = ErrorLevel))
          && Logger.colored L
       then [ToOutput (Logger.output L) reset] else [])
  else [].

(** The payloads written to the primary sink [w] and to the file [f]. *)
Definition to_output (w : Writer) (tr : list Written) : list string :=
  omap (fun x => match x with
                 | ToOutput w' p => if decide (w' = w) then Some p else None
                 | ToFile _ _ => None
                 end) tr.

Definition to_file (f : File) (tr : list Written) : list string :=
  omap (fun x => match x with
                 | ToFile f' p => if decide (f' = f) then Some p else None
                 | ToOutput _ _ => None
                 end) tr.

(** The state after an emission with sequence ID [logID] that rendered
    [line] for the console and [plain] for the file. *)
Definition after_log (st : State) (L : Logger) (level : LogLevel) (logID : Z)
    (line plain : string) : State :=
  mkState logID (line :: tail (bufferPool st)) (loggers st) (maps st)
          (written st ++ file_part L plain ++ console_part L level line).

(** What the calls between [st] and [st'] wrote. *)
Definition emitted (st st' : State) : list Written :=
  drop (length (written st)) (written st').

(** The line that [log] builds in its buffer for the primary sink. *)
Definition trolog_console_line (level : LogLevel) (timestamp message : string)
    (fields extraFields : gmap string string) (logID : Z) (env : Env) : string :=
  id_first_line logID (console_level level) timestamp message
    (comma fields extraFields) (console_fields fields extraFields env).

Definition trologger_console_line (level : LogLevel) (timestamp message : string)
    (fields extraFields : gmap string string) (logID : Z) (env : Env) : string :=
  level_first_line logID (console_level level) timestamp message
    (comma fields extraFields) (console_fields fields extraFields env).

(** ** Deriving a logger

    The state in which a new logger has been derived from [L] with the
    field [key] set to the text [s]: a new field map and a new Logger struct
    at unused addresses, nothing else touched. *)
Definition derive (st : State) (L : Logger) (key s : string) : loc * State :=
  let fields := fresh (dom (maps st)) in
  let newLogger := fresh (dom (loggers st)) in
  (newLogger,
   mkState (logIDCounter st) (bufferPool st)
     (<[newLogger := Logger.mk (Logger.level L) (Logger.output L) (Logger.file L)
                       (Logger.colored L) fields]> (loggers st))
     (<[fields := <[key := s]> (read_map (Logger.fields L) st)]> (maps st))
     (written st)).

(** ** Runs of emission calls *)

Record Call : Type := mkCall {
  call_logger : loc;
  call_level : LogLevel;
  call_message : string;
  call_extra : gmap string string;
  call_env : Env
}.

(** The calls are executed in the order in which they take their sequence
    ID; the result is the state after each call. *)
Fixpoint run_calls
    (log : loc -> LogLevel -> string -> gmap string string -> Env -> State -> outcome State)
    (calls : list Call) (st : State) : outcome (list State) :=
  match calls with
  | [] => Ok []
  | c :: rest =>
      st' ← log (call_logger c) (call_level c) (call_message c) (call_extra c) (call_env c) st;
      sts ← run_calls log rest st';
      Ok (st' :: sts)
  end.

(** ** Formatting, as the specification words it

    [formats verb plain format args out]: [out] is [format] with every
    placeholder [%c] replaced by the rendering [verb c v] of the next
    argument [v], and every other character copied; a ['%'] is a
    placeholder's first character or the last character of the format
    string, and the other characters are among those that [plain] admits. *)
Inductive formats (verb : ascii -> Value -> option string) (plain : ascii -> bool)
    : string -> list Value -> string -> Prop :=
| formats_end args :
    formats verb plain "" args ""
| formats_last_percent args :
    formats verb plain "%" args "%"
| formats_char c format args out :
    c <> "%"%char ->
    plain c = true ->
    formats verb plain format args out ->
    formats verb plain (String c format) args (String c out)
| formats_verb c v s format args out :
    verb c v = Some s ->
    formats verb plain format args out ->
    formats verb plain (String "%" (String c format)) (v :: args) (s +:+ out).

(** The characters below 0x80. *)
Definition is_ascii (c : ascii) : bool := (nat_of_ascii c <? 128)%nat.

Definition any_byte (c : ascii) : bool := true.

(** The placeholders of part_001: %s of any value, %d of an int, %f of a
    float64. *)
Definition trolog_verb (c : ascii) (v : Value) : option string :=
  if Ascii.eqb c "s" then Some (Trolog.valueToString v)
  else if Ascii.eqb c "d" then
    match v with VInt i => Some (Itoa i) | _ => None end
  else if Ascii.eqb c "f" then
    match v with VFloat f => Some (Trolog.floatToString f) | _ => None end
  else None.

(** The placeholders of logger.go: %s of a string, %d of an int. *)
Definition trologger_verb (c : ascii) (v : Value) : option string :=
  if Ascii.eqb c "s" then
    match v with VString s => Some s | _ => None end
  else if Ascii.eqb c "d" then
    match v with
    | VInt i => match TroLogger.intToString i with Ok s => Some s | Panic _ => None end
    | _ => None
    end
  else None.

(** All the bytes of a list of payloads, in order. *)
Definition received_text (payloads : list string) : string :=
  foldr String.append "" payloads.

(** A message that carries an escape sequence of its own. *)
Definition bold_message : string := String ESC "[1mboom".

(** ** Decimal digits *)

(** The decimal digits of a positive integer, least significant first. *)
Fixpoint little_digits (fuel : nat) (i : Z) : list Z :=
  match fuel with
  | O => []
  | S fuel' =>
      if 0 <? i then Z.rem i 10 :: little_digits fuel' (Z.quot i 10) else []
  end.

(** A digit in front of a little-endian decimal number. *)
Definition lu_cons (r : Z) (d : uint) : uint :=
  match r with
  | 0 => D0 d | 1 => D1 d | 2 => D2 d | 3 => D3 d | 4 => D4 d
  | 5 => D5 d | 6 => D6 d | 7 => D7 d | 8 => D8 d | _ => D9 d
  end.

Definition lu_of_digits (ds : list Z) : uint := foldr lu_cons Nil ds.

Definition digit_char (r : Z) : ascii := byte_of_Z (48 + r).

Definition is_digit (r : Z) : Prop := 0 <= r <= 9.

(** The text of a list of digits. *)
Definition digits_text (ds : list Z) : string :=
  string_of_list_ascii (digit_char <$> ds).

(** ** Concrete loggers and records *)

Definition example_time : string := "2024-10-10T10:24:44+06:00".

(** The run time visits every map in its stored order. *)
Definition example_env : Env := mkEnv example_time [] [] [] [].

(** As [example_env], but the loop of [buildLogMessage] over the logger's
    fields starts at the second entry. *)
Definition other_order_env : Env := mkEnv example_time [] [] [1%nat] [].

Definition empty_state : State := mkState 0 [] ∅ ∅ [].

(** A logger at address 1 with minimum level Info, primary sink 1, file 7,
    color disabled, and its field map at address 1. *)
Definition example_logger : Logger := Logger.mk InfoLevel 1%nat (Some 7%nat) false 1%positive.

Definition example_state : State :=
  mkState 0 [] {[1%positive := example_logger]} {[1%positive := ∅]} [].

Definition two_fields : gmap string string := {["a" := "1"; "b" := "2"]}.

Definition two_field_state : State :=
  mkState 0 [] {[1%positive := example_logger]} {[1%positive := two_fields]} [].

(** The logger that [NewLogger] makes in [empty_state] for minimum level
    Info, primary sink 1, color disabled and no file, and the state it
    leaves. *)
Definition plain_logger : Logger := Logger.mk InfoLevel 1%nat None false 1%positive.

Definition plain_logger_state : State :=
  mkState 0 [] {[1%positive := plain_logger]} {[1%positive := ∅]} [].

(** ** Closing the file

    [Close] is the same text in logger.go and in part_001.  The set of the
    files closed so far and the answer of the operating system to a close
    are the environment's. *)

Inductive os_error : Set :=
| ErrClosed                      (* os.ErrClosed: "file already closed" *)
| SyscallError (errno : nat).    (* the error of the close system call *)

(** [f.Close()] of Go's library: an error if Close has been called on the
    file already; otherwise the file is closed for good and the answer of
    the operating system is returned. *)
Definition File_Close (f : File) (os_close : File -> option os_error)
    (closed : gset File) : option os_error * gset File :=
  if decide (f ∈ closed) then (Some ErrClosed, closed)
  else (os_close f, {[f]} ∪ closed).

(** Close closes the log file if it's being used *)
Definition Close (l : loc) (os_close : File -> option os_error) (st : State)
    (closed : gset File) : outcome (option os_error * gset File) :=
  L ← deref l st;
  match Logger.file L with
  | Some f => Ok (File_Close f os_close closed)
  | None => Ok (None, closed)
  end.

(** ** Reading a decimal text back *)

(** The integer that a decimal text denotes, with the Standard Library's
    reader. *)
Definition Atoi (s : string) : option Z :=
  Z.of_int <$> NilZero.int_of_string s.

(** ** Texts byte by byte *)

Fixpoint string_forallb (P : ascii -> bool) (s : string) : bool :=
  match s with
  | EmptyString => true
  | String c r => P c && string_forallb P r
  end.

Definition not_percent (c : ascii) : bool := negb (Ascii.eqb c "%").

(** Every byte converted on its own by [string(b)]. *)
Fixpoint recode (s : string) : string :=
  match s with
  | EmptyString => EmptyString
  | String c r => string_of_byte c +:+ recode r
  end.

(** The number of bytes from 0x80 on. *)
Fixpoint high_bytes (s : string) : nat :=
  match s with
  | EmptyString => O
  | String c r => ((if is_ascii c then 0 else 1) + high_bytes r)%nat
  end.

(** ** Loggers in the heap *)

(** The entries of the field map of the logger at [l]. *)
Definition logger_fields (l : loc) (st : State) : gmap string string :=
  match loggers st !! l with
  | Some L => read_map (Logger.fields L) st
  | None => ∅
  end.

(** The logger at [l] is a Logger struct whose field map is allocated, as
    [NewLogger] and [AddField] make them. *)
Definition logger_at (l : loc) (L : Logger) (st : State) : Prop :=
  loggers st !! l = Some L /\ is_Some (maps st !! Logger.fields L).

(** [st] with another content of the buffer pool. *)
Definition with_pool (pool : list string) (st : State) : State :=
  mkState (logIDCounter st) pool (loggers st) (maps st) (written st).

(** ** What the two variants have in common *)

(** An integer of at most ten characters in decimal. *)
Definition short_int (i : Z) : Prop := - 10 ^ 9 < i < 10 ^ 10.

(** The values whose integers, and for a float whose integer part and
    hundredths, are short. *)
Definition short_value (v : Value) : Prop :=
  match v with
  | VInt i => short_int i
  | VFloat f =>
      f64_eqb f (S754_zero false) = true \/
      (short_int (int_of_float64 f) /\
       short_int (int_of_float64
                    (f64_mul (f64_sub f (float64_of_int (int_of_float64 f)))
                             (float64_of_int 100))))
  | _ => True
  end.

(** The placeholders that both variants know, on the arguments that both
    render: %s of a string and %d of a short int. *)
Definition common_verb (c : ascii) (v : Value) : option string :=
  if Ascii.eqb c "s" then
    match v with VString s => Some s | _ => None end
  else if Ascii.eqb c "d" then
    match v with
    | VInt i => if (- 10 ^ 9 <? i) && (i <? 10 ^ 10) then Some (Itoa i) else None
    | _ => None
    end
  else None.

(** A state whose counter stands at the largest ID. *)
Definition last_id_state : State :=
  mkState MaxInt32 [] {[1%positive := example_logger]} {[1%positive := ∅]} [].

(** * Basic facts *)

(** ** Strings *)

Lemma sapp_nil_r (s : string) : s +:+ "" = s.
Proof. induction s as [|c s IH]; [done|]. unfold String.app in *. simpl. by rewrite IH. Qed.

Lemma sapp_cons (c : ascii) (s t : string) : String c s +:+ t = String c (s +:+ t).
Proof. done. Qed.

Lemma sapp_assoc (s t u : string) : (s +:+ t) +:+ u = s +:+ t +:+ u.
Proof.
  induction s as [|c s IH]; [done|].
  rewrite !sapp_cons. by rewrite IH.
Qed.

Lemma has_esc_app (s t : string) : has_esc (s +:+ t) = has_esc s || has_esc t.
Proof.
  induction s as [|c s IH]; [done|].
  rewrite sapp_cons. simpl. rewrite IH. by rewrite orb_assoc.
Qed.

Lemma has_esc_uint (d : uint) : has_esc (NilEmpty.string_of_uint d) = false.
Proof. induction d; simpl; auto. Qed.

Lemma has_esc_Itoa (i : Z) : has_esc (Itoa i) = false.
Proof.
  unfold Itoa, NilZero.string_of_int, NilZero.string_of_uint.
  destruct (Z.to_int i) as [d|d]; destruct d; simpl; auto using has_esc_uint.
Qed.

Lemma has_esc_levelString (level : LogLevel) : has_esc (levelString level) = false.
Proof. by destruct level. Qed.

Lemma has_esc_getColor (level : LogLevel) : has_esc (getColor level) = true.
Proof. by destruct level. Qed.

Lemma levelString_length (level : LogLevel) : String.length (levelString level) = 4%nat.
Proof. by destruct level. Qed.

Lemma has_esc_console_level (level : LogLevel) : has_esc (console_level level) = true.
Proof.
  unfold console_level.
  destruct (_ || _); rewrite has_esc_app, has_esc_getColor; done.
Qed.

(** ** The field loops *)

Lemma append_field_text (buf : string) (kv : string * string) :
  append_field buf kv = buf +:+ field_text kv.
Proof. unfold append_field, field_text. by rewrite !sapp_assoc. Qed.

Lemma fold_append_field (kvs : list (string * string)) (buf : string) :
  fold_left append_field kvs buf = buf +:+ fields_text kvs.
Proof.
  revert buf. induction kvs as [|kv kvs IH]; intros buf; simpl.
  - by rewrite sapp_nil_r.
  - by rewrite IH, append_field_text, sapp_assoc.
Qed.

Lemma fields_text_app (kvs kvs' : list (string * string)) :
  fields_text (kvs ++ kvs') = fields_text kvs +:+ fields_text kvs'.
Proof.
  induction kvs as [|kv kvs IH]; simpl; [done|].
  by rewrite IH, sapp_assoc.
Qed.

Lemma has_esc_fields_text (kvs : list (string * string)) :
  Forall (fun kv => has_esc kv.1 = false /\ has_esc kv.2 = false) kvs ->
  has_esc (fields_text kvs) = false.
Proof.
  induction 1 as [|kv kvs [Hk Hv] _ IH]; simpl; [done|].
  unfold field_text. rewrite !has_esc_app, Hk, Hv, IH. done.
Qed.

(** ** Iteration orders *)

Lemma shuffle_from_S {A : Type} (fuel : nat) (choice : list nat) (l : list A) :
  shuffle_from (S fuel) choice l =
  match l !! (hd 0%nat choice `mod` length l)%nat with
  | Some x =>
      x :: shuffle_from fuel (tl choice) (delete (hd 0%nat choice `mod` length l)%nat l)
  | None => []
  end.
Proof. done. Qed.

Lemma shuffle_from_Permutation {A : Type} (fuel : nat) (choice : list nat) (l : list A) :
  length l = fuel -> shuffle_from fuel choice l ≡ₚ l.
Proof.
  revert choice l. induction fuel as [|fuel IH]; intros choice l Hlen; simpl.
  - by destruct l.
  - assert (Hlt : (hd 0%nat choice `mod` length l < length l)%nat)
      by (apply Nat.mod_upper_bound; lia).
    destruct (lookup_lt_is_Some_2 l _ Hlt) as [x Hx].
    rewrite Hx. etrans; [|symmetry; exact (delete_Permutation l _ x Hx)].
    constructor. apply IH.
    rewrite length_delete by eauto. lia.
Qed.

Lemma shuffle_Permutation {A : Type} (choice : list nat) (l : list A) :
  shuffle choice l ≡ₚ l.
Proof. by apply shuffle_from_Permutation. Qed.

Lemma shuffle_complete {A : Type} (l l' : list A) :
  l' ≡ₚ l -> exists choice, shuffle choice l = l'.
Proof.
  unfold shuffle. revert l. induction l' as [|x l' IH]; intros l Hp.
  - apply Permutation_nil_l in Hp as <-. by exists [].
  - assert (Hx : x ∈ l) by (rewrite <- Hp; left).
    apply list_elem_of_lookup in Hx as [i Hi].
    assert (Hp' : l' ≡ₚ delete i l).
    { apply (Permutation_cons_inv (a := x)). by rewrite Hp, <- delete_Permutation. }
    destruct (IH _ Hp') as [choice Hc].
    exists (i :: choice).
    assert (Hlt : (i < length l)%nat) by (by eapply lookup_lt_Some).
    destruct (length l) as [|n] eqn:Hn; [lia|].
    rewrite shuffle_from_S. cbn [hd tl].
    rewrite Hn, Nat.mod_small by lia.
    rewrite Hi. f_equal.
    rewrite <- Hc. f_equal.
    rewrite length_delete by eauto. lia.
Qed.

Lemma shuffle_nil {A : Type} (choice : list nat) : shuffle choice (@nil A) = [].
Proof. done. Qed.

Lemma shuffle_singleton {A : Type} (choice : list nat) (x : A) : shuffle choice [x] = [x].
Proof.
  unfold shuffle. change (length [x]) with 1%nat.
  rewrite shuffle_from_S. change (length [x]) with 1%nat.
  by rewrite Nat.mod_1_r.
Qed.

Lemma range_empty (choice : list nat) : range choice ∅ = [].
Proof. unfold range. by rewrite map_to_list_empty. Qed.

Lemma range_Permutation (choice : list nat) (m : gmap string string) :
  range choice m ≡ₚ map_to_list m.
Proof. apply shuffle_Permutation. Qed.

Lemma range_elem_of (choice : list nat) (m : gmap string string) (k v : string) :
  (k, v) ∈ range choice m <-> m !! k = Some v.
Proof. rewrite range_Permutation. apply elem_of_map_to_list. Qed.

Lemma range_small (choice choice' : list nat) (m : gmap string string) :
  (size m <= 1)%nat -> range choice m = range choice' m.
Proof.
  unfold range. rewrite <- length_map_to_list.
  destruct (map_to_list m) as [|x [|y l]]; simpl; intros; try lia.
  - done.
  - by rewrite !shuffle_singleton.
Qed.

Lemma range_plain (choice : list nat) (m : gmap string string) :
  plain_map m ->
  Forall (fun kv => has_esc kv.1 = false /\ has_esc kv.2 = false) (range choice m).
Proof.
  intros Hm. apply Forall_forall. intros [k v] Hkv.
  apply range_elem_of in Hkv. exact (Hm k v Hkv).
Qed.

(** ** One emission, step by step *)

Ltac flatten_text :=
  rewrite ?fold_append_field, ?fields_text_app, ?sapp_assoc.

Lemma trolog_buildLogMessage_plain level timestamp message fields extraFields logID env :
  Trolog.buildLogMessage level timestamp message fields extraFields false logID env =
  id_first_line logID (levelString level) timestamp message
    (comma fields extraFields) (file_fields fields extraFields env).
Proof.
  unfold Trolog.buildLogMessage, id_first_line, file_fields, comma.
  destruct (_ || _); flatten_text; done.
Qed.

Lemma trologger_buildLogMessage_plain level timestamp message fields extraFields logID env :
  TroLogger.buildLogMessage level timestamp message fields extraFields false logID env =
  level_first_line logID (levelString level) timestamp message
    (comma fields extraFields) (file_fields fields extraFields env).
Proof.
  unfold TroLogger.buildLogMessage, level_first_line, file_fields, comma.
  destruct (_ || _); flatten_text; done.
Qed.

(** The proof of both variants: run the steps of [log], split on the file,
    the level test and the trailing reset, and compare the texts once they
    are put in one shape. *)
Ltac solve_log_spec HL plain :=
  let pool := fresh "pool" in
  match goal with
  | |- context [logIDCounter ?st] => is_var st; destruct st as [? pool ? ? ?]
  end;
  simpl in HL;
  unfold atomic_AddInt32, bufferPool_Get, deref, after_log,
    bufferPool_Put, Write, read_map, file_part, console_part;
  cbn [logIDCounter bufferPool loggers maps written];
  destruct pool as [|? ?];
  cbn [logIDCounter bufferPool loggers maps written tail mbind outcome_bind];
  rewrite HL; cbn [mbind outcome_bind];
  rewrite plain;
  match goal with
  | |- context [Logger.file ?L] =>
      match goal with
      | |- context [rank (Logger.level L) <=? rank ?level] =>
          destruct (Logger.file L), (rank (Logger.level L) <=? rank level),
            ((bool_decide (level = WarnLevel) || bool_decide (level = ErrorLevel))
               && Logger.colored L),
            (bool_decide (level = DebugLevel) || bool_decide (level = InfoLevel)) eqn:?
      end
  end;
  cbn [logIDCounter bufferPool loggers maps written];
  unfold id_first_line, level_first_line, console_level, comma, console_fields;
  repeat match goal with H : (_ || _) = _ |- _ => rewrite H; clear H end;
  match goal with
  | |- context [((0 <? size ?m)%nat || (0 <? size ?e)%nat)] =>
      destruct ((0 <? size m)%nat || (0 <? size e)%nat)
  end;
  flatten_text; rewrite <- ?(assoc_L (++)); cbn [app]; rewrite ?app_nil_r;
  reflexivity.

Lemma trolog_log_spec l L level message extraFields env st :
  loggers st !! l = Some L ->
  Trolog.log l level message extraFields env st =
  let logID := wrap32 (logIDCounter st + 1) in
  let fields := read_map (Logger.fields L) st in
  Ok (after_log st L level logID
        (id_first_line logID (console_level level) (time_Now env) message
           (comma fields extraFields) (console_fields fields extraFields env))
        (id_first_line logID (levelString level) (time_Now env) message
           (comma fields extraFields) (file_fields fields extraFields env))).
Proof. intros HL. unfold Trolog.log. by solve_log_spec HL trolog_buildLogMessage_plain. Qed.

Lemma trologger_log_spec l L level message extraFields env st :
  loggers st !! l = Some L ->
  TroLogger.log l level message extraFields env st =
  let logID := wrap32 (logIDCounter st + 1) in
  let fields := read_map (Logger.fields L) st in
  Ok (after_log st L level logID
        (level_first_line logID (console_level level) (time_Now env) message
           (comma fields extraFields) (console_fields fields extraFields env))
        (level_first_line logID (levelString level) (time_Now env) message
           (comma fields extraFields) (file_fields fields extraFields env))).
Proof. intros HL. unfold TroLogger.log. by solve_log_spec HL trologger_buildLogMessage_plain. Qed.

(** ** Escape sequences in a line *)

Lemma strip_plain_app (s t : string) :
  has_esc s = false -> strip_ansi (s +:+ t) = s +:+ strip_ansi t.
Proof.
  unfold strip_ansi. induction s as [|c s IH]; [done|].
  simpl. intros [Hc Hs]%orb_false_elim.
  rewrite !sapp_cons. simpl. rewrite Hc. by rewrite IH.
Qed.

Lemma strip_plain (s : string) : has_esc s = false -> strip_ansi s = s.
Proof.
  intros Hs. rewrite <- (sapp_nil_r s) at 1.
  rewrite strip_plain_app by done. apply sapp_nil_r.
Qed.

Lemma strip_getColor (level : LogLevel) (t : string) :
  strip_ansi (getColor level +:+ t) = strip_ansi t.
Proof. by destruct level. Qed.

Lemma strip_reset (t : string) : strip_ansi (reset +:+ t) = strip_ansi t.
Proof. done. Qed.

Lemma strip_console_level (level : LogLevel) (t : string) :
  strip_ansi (console_level level +:+ t) = levelString level +:+ strip_ansi t.
Proof.
  unfold console_level. destruct (_ || _); rewrite ?sapp_assoc, strip_getColor,
    strip_plain_app, ?strip_reset by apply has_esc_levelString; done.
Qed.

Lemma has_esc_comma (fields extraFields : gmap string string) :
  has_esc (comma fields extraFields) = false.
Proof. unfold comma. by destruct (_ || _). Qed.

Lemma has_esc_newline : has_esc newline = false.
Proof. done. Qed.

(** The rest of a line after the level code: no ESC when the record's own
    text has none. *)
Lemma strip_id_first_line logID level timestamp message fields extraFields kvs tail :
  has_esc timestamp = false ->
  has_esc message = false ->
  Forall (fun kv => has_esc kv.1 = false /\ has_esc kv.2 = false) kvs ->
  strip_ansi (id_first_line logID (console_level level) timestamp message
                (comma fields extraFields) kvs +:+ tail) =
  id_first_line logID (levelString level) timestamp message
    (comma fields extraFields) kvs +:+ strip_ansi tail.
Proof.
  intros Ht Hm Hk. unfold id_first_line. rewrite !sapp_assoc.
  rewrite (strip_plain_app "ID:") by done.
  rewrite (strip_plain_app (Itoa _)) by apply has_esc_Itoa.
  rewrite (strip_plain_app " ") by done.
  rewrite strip_console_level.
  rewrite (strip_plain_app " ") by done.
  rewrite (strip_plain_app timestamp) by done.
  rewrite (strip_plain_app " ") by done.
  rewrite (strip_plain_app message) by done.
  rewrite (strip_plain_app (comma _ _)) by apply has_esc_comma.
  rewrite (strip_plain_app (fields_text _)) by by apply has_esc_fields_text.
  rewrite (strip_plain_app newline) by done.
  done.
Qed.

Lemma strip_level_first_line logID level timestamp message fields extraFields kvs tail :
  has_esc timestamp = false ->
  has_esc message = false ->
  Forall (fun kv => has_esc kv.1 = false /\ has_esc kv.2 = false) kvs ->
  strip_ansi (level_first_line logID (console_level level) timestamp message
                (comma fields extraFields) kvs +:+ tail) =
  level_first_line logID (levelString level) timestamp message
    (comma fields extraFields) kvs +:+ strip_ansi tail.
Proof.
  intros Ht Hm Hk. unfold level_first_line. rewrite !sapp_assoc.
  rewrite strip_console_level.
  rewrite (strip_plain_app " ") by done.
  rewrite (strip_plain_app timestamp) by done.
  rewrite (strip_plain_app " ") by done.
  rewrite (strip_plain_app "ID:") by done.
  rewrite (strip_plain_app (Itoa _)) by apply has_esc_Itoa.
  rewrite (strip_plain_app " ") by done.
  rewrite (strip_plain_app message) by done.
  rewrite (strip_plain_app (comma _ _)) by apply has_esc_comma.
  rewrite (strip_plain_app (fields_text _)) by by apply has_esc_fields_text.
  rewrite (strip_plain_app newline) by done.
  done.
Qed.

Lemma console_fields_plain fields extraFields env :
  plain_map fields -> plain_map extraFields ->
  Forall (fun kv => has_esc kv.1 = false /\ has_esc kv.2 = false)
         (console_fields fields extraFields env).
Proof. intros. apply Forall_app; split; by apply range_plain. Qed.

(** A console line always carries the level's color code. *)
Lemma has_esc_id_first_console logID level timestamp message punct kvs :
  has_esc (id_first_line logID (console_level level) timestamp message punct kvs) = true.
Proof.
  unfold id_first_line. rewrite !has_esc_app, has_esc_console_level.
  by rewrite !orb_true_r.
Qed.

Lemma has_esc_level_first_console logID level timestamp message punct kvs :
  has_esc (level_first_line logID (console_level level) timestamp message punct kvs) = true.
Proof.
  unfold level_first_line. by rewrite !has_esc_app, has_esc_console_level.
Qed.

(** A plain line has an ESC byte only where the record's own text has. *)
Lemma has_esc_id_first_plain logID level timestamp message fields extraFields kvs :
  has_esc timestamp = false ->
  has_esc message = false ->
  Forall (fun kv => has_esc kv.1 = false /\ has_esc kv.2 = false) kvs ->
  has_esc (id_first_line logID (levelString level) timestamp message
             (comma fields extraFields) kvs) = false.
Proof.
  intros Ht Hm Hk. unfold id_first_line.
  rewrite !has_esc_app, has_esc_Itoa, has_esc_levelString, Ht, Hm, has_esc_comma,
    has_esc_fields_text by done.
  done.
Qed.

Lemma has_esc_level_first_plain logID level timestamp message fields extraFields kvs :
  has_esc timestamp = false ->
  has_esc message = false ->
  Forall (fun kv => has_esc kv.1 = false /\ has_esc kv.2 = false) kvs ->
  has_esc (level_first_line logID (levelString level) timestamp message
             (comma fields extraFields) kvs) = false.
Proof.
  intros Ht Hm Hk. unfold level_first_line.
  rewrite !has_esc_app, has_esc_Itoa, has_esc_levelString, Ht, Hm, has_esc_comma,
    has_esc_fields_text by done.
  done.
Qed.

(** ** Sinks *)

Lemma to_output_app w tr tr' : to_output w (tr ++ tr') = to_output w tr ++ to_output w tr'.
Proof. apply omap_app. Qed.

Lemma to_file_app f tr tr' : to_file f (tr ++ tr') = to_file f tr ++ to_file f tr'.
Proof. apply omap_app. Qed.

Lemma to_output_file_part w L line : to_output w (file_part L line) = [].
Proof. unfold file_part. by destruct (Logger.file L). Qed.

Lemma to_file_console_part f L level line : to_file f (console_part L level line) = [].
Proof. unfold console_part. by repeat destruct (_ : bool). Qed.

Lemma to_file_file_part f L line :
  Logger.file L = Some f -> to_file f (file_part L line) = [line].
Proof. unfold file_part. intros ->. simpl. by rewrite decide_True. Qed.

Lemma to_output_console_part L level line :
  to_output (Logger.output L) (console_part L level line) =
  if rank (Logger.level L) <=? rank level then
    line :: (if (bool_decide (level = WarnLevel) || bool_decide (level = ErrorLevel))
                && Logger.colored L then [reset] else [])
  else [].
Proof.
  unfold console_part.
  destruct (_ <=? _); [|done].
  destruct (_ && _); simpl; by rewrite ?decide_True.
Qed.

Lemma emitted_app st st' tr : written st' = written st ++ tr -> emitted st st' = tr.
Proof. unfold emitted. intros ->. by rewrite drop_app_length. Qed.

(** ** What one emission does, for both variants *)

Lemma trolog_log_effect l L level message extraFields env st :
  loggers st !! l = Some L ->
  exists st',
    Trolog.log l level message extraFields env st = Ok st' /\
    logIDCounter st' = wrap32 (logIDCounter st + 1) /\
    loggers st' = loggers st /\
    maps st' = maps st /\
    emitted st st' =
      file_part L (Trolog.buildLogMessage level (time_Now env) message
                     (read_map (Logger.fields L) st) extraFields false
                     (logIDCounter st') env) ++
      console_part L level
        (trolog_console_line level (time_Now env) message
           (read_map (Logger.fields L) st) extraFields (logIDCounter st') env).
Proof.
  intros HL. eexists. split; [by apply trolog_log_spec|].
  cbn zeta. unfold after_log. cbn [logIDCounter loggers maps].
  repeat split. apply emitted_app. cbn [written].
  by rewrite trolog_buildLogMessage_plain.
Qed.

Lemma trologger_log_effect l L level message extraFields env st :
  loggers st !! l = Some L ->
  exists st',
    TroLogger.log l level message extraFields env st = Ok st' /\
    logIDCounter st' = wrap32 (logIDCounter st + 1) /\
    loggers st' = loggers st /\
    maps st' = maps st /\
    emitted st st' =
      file_part L (TroLogger.buildLogMessage level (time_Now env) message
                     (read_map (Logger.fields L) st) extraFields false
                     (logIDCounter st') env) ++
      console_part L level
        (trologger_console_line level (time_Now env) message
           (read_map (Logger.fields L) st) extraFields (logIDCounter st') env).
Proof.
  intros HL. eexists. split; [by apply trologger_log_spec|].
  cbn zeta. unfold after_log. cbn [logIDCounter loggers maps].
  repeat split. apply emitted_app. cbn [written].
  by rewrite trologger_buildLogMessage_plain.
Qed.

(** What the sinks of [L] receive from the writes of one emission. *)
Lemma sinks_of_emission L level line plain :
  (rank (Logger.level L) <= rank level <->
     line ∈ to_output (Logger.output L) (file_part L plain ++ console_part L level line)) /\
  (rank level < rank (Logger.level L) ->
     to_output (Logger.output L) (file_part L plain ++ console_part L level line) = []) /\
  (forall f, Logger.file L = Some f ->
     to_file f (file_part L plain ++ console_part L level line) = [plain]).
Proof.
  rewrite to_output_app, to_output_file_part, to_output_console_part. cbn [app].
  split; [|split].
  - destruct (Z.leb_spec (rank (Logger.level L)) (rank level)) as [Hle|Hlt].
    + split; [intros _; left | done].
    + split; [lia | by intros ?%elem_of_nil].
  - intros Hlt. by rewrite (proj2 (Z.leb_gt _ _) Hlt).
  - intros f Hf. rewrite to_file_app, to_file_console_part, (to_file_file_part f) by done.
    done.
Qed.

(** ** Deriving a logger *)

Lemma copy_entries (kvs : list (string * string)) (acc : gmap string string) :
  fold_left (fun m kv => <[kv.1 := kv.2]> m) kvs acc = list_to_map (reverse kvs) ∪ acc.
Proof.
  revert acc. induction kvs as [|[k v] kvs IH]; intros acc; simpl.
  - by rewrite (left_id_L ∅ (∪)).
  - rewrite IH, reverse_cons, list_to_map_app. simpl.
    rewrite <- (assoc_L (∪)). f_equal.
    by rewrite insert_empty, <- insert_union_singleton_l.
Qed.

Lemma copy_range (order : list nat) (m : gmap string string) :
  fold_left (fun acc kv => <[kv.1 := kv.2]> acc) (range order m) ∅ = m.
Proof.
  rewrite copy_entries, (right_id_L ∅ (∪)).
  rewrite <- (list_to_map_to_list m) at 2.
  apply list_to_map_proper.
  - rewrite fmap_reverse, reverse_Permutation, range_Permutation.
    apply NoDup_fst_map_to_list.
  - by rewrite reverse_Permutation, range_Permutation.
Qed.

Lemma fold_map_store (p : loc) (kvs : list (string * string)) (st : State)
    (m0 : gmap string string) :
  maps st !! p = Some m0 ->
  fold_left (fun st kv => map_store p kv.1 kv.2 st) kvs st =
  mkState (logIDCounter st) (bufferPool st) (loggers st)
    (<[p := fold_left (fun m kv => <[kv.1 := kv.2]> m) kvs m0]> (maps st)) (written st).
Proof.
  revert st m0. induction kvs as [|kv kvs IH]; intros st m0 Hp; simpl.
  - rewrite insert_id by done. by destruct st.
  - erewrite IH.
    + unfold map_store, read_map. cbn [logIDCounter bufferPool loggers maps written].
      rewrite Hp. cbn [default]. by rewrite insert_insert_eq.
    + unfold map_store, read_map. cbn [maps]. rewrite Hp. apply lookup_insert_eq.
Qed.

Lemma read_map_after_make_map (p : loc) (st : State) lg pool c wr :
  read_map p (mkState c pool lg (<[fresh (dom (maps st)) := ∅]> (maps st)) wr) =
  read_map p st.
Proof.
  unfold read_map. cbn [maps].
  destruct (decide (p = fresh (dom (maps st)))) as [->|Hne].
  - rewrite lookup_insert_eq.
    assert (maps st !! fresh (dom (maps st)) = None) as ->; [|done].
    apply not_elem_of_dom, is_fresh.
  - by rewrite lookup_insert_ne.
Qed.

(** The loops and allocations of [AddField], once the text of the value is
    known. *)
Lemma AddField_steps (L : Logger) (key s : string) (order : list nat) (st : State) :
  (let '(fields, st1) := make_map st in
   let '(newLogger, st2) :=
     alloc_logger
       (Logger.mk (Logger.level L) (Logger.output L) (Logger.file L) (Logger.colored L) fields)
       st1 in
   let st3 :=
     fold_left (fun st kv => map_store fields kv.1 kv.2 st)
               (range order (read_map (Logger.fields L) st2)) st2 in
   (newLogger, map_store fields key s st3)) = derive st L key s.
Proof.
  unfold make_map, alloc_logger, derive.
  cbn [logIDCounter bufferPool loggers maps written].
  rewrite read_map_after_make_map.
  erewrite fold_map_store by (cbn [maps]; apply lookup_insert_eq).
  rewrite copy_range.
  unfold map_store, read_map. cbn [logIDCounter bufferPool loggers maps written].
  rewrite lookup_insert_eq. cbn [default].
  rewrite !insert_insert_eq. reflexivity.
Qed.

Lemma trolog_AddField_spec l L key value order st :
  loggers st !! l = Some L ->
  Trolog.AddField l key value order st =
  Ok (derive st L key (Trolog.valueToString value)).
Proof.
  intros HL. unfold Trolog.AddField, deref. rewrite HL. cbn [mbind outcome_bind].
  rewrite <- (AddField_steps L key _ order st).
  unfold make_map, alloc_logger. reflexivity.
Qed.

Lemma trologger_AddField_spec l L key value order st :
  loggers st !! l = Some L ->
  TroLogger.AddField l key value order st =
  match TroLogger.valueToString value with
  | Ok s => Ok (derive st L key s)
  | Panic f => Panic f
  end.
Proof.
  intros HL. unfold TroLogger.AddField, deref. rewrite HL. cbn [mbind outcome_bind].
  unfold make_map, alloc_logger.
  destruct (TroLogger.valueToString value) as [s|f]; cbn [mbind outcome_bind]; [|done].
  rewrite <- (AddField_steps L key s order st).
  unfold make_map, alloc_logger. reflexivity.
Qed.

(** * The claims of the specification *)

(** C2. For every emitted record of level L and every configured minimum
    level M, the primary (console) sink receives the rendered line if and
    only if rank(L) >= rank(M), under the order Debug < Info < Warn < Error <
    Panic < Trace; the file sink, whenever a file is configured, receives the
    plain rendered line for every emission, whatever L and M are, and
    nothing else.  The plain line is the record in the layout of the
    variant, with the bare level code and with the fields in the order in
    which the file rendering visits them.  Both variants. *)
Theorem console_is_filtered_file_is_not
    (l : loc) (L : Logger) (level : LogLevel) (message : string)
    (extraFields : gmap string string) (env : Env) (st : State) :
  loggers st !! l = Some L ->
  let logID := wrap32 (logIDCounter st + 1) in
  let fields := read_map (Logger.fields L) st in
  (exists st',
      Trolog.log l level message extraFields env st = Ok st' /\
      let line := trolog_console_line level (time_Now env) message fields extraFields logID env in
      let plain := id_first_line logID (levelString level) (time_Now env) message
                     (comma fields extraFields) (file_fields fields extraFields env) in
      (rank (Logger.level L) <= rank level <->
         line ∈ to_output (Logger.output L) (emitted st st')) /\
      (rank level < rank (Logger.level L) ->
         to_output (Logger.output L) (emitted st st') = []) /\
      (forall f, Logger.file L = Some f -> to_file f (emitted st st') = [plain])) /\
  (exists st',
      TroLogger.log l level message extraFields env st = Ok st' /\
      let line := trologger_console_line level (time_Now env) message fields extraFields logID env in
      let plain := level_first_line logID (levelString level) (time_Now env) message
                     (comma fields extraFields) (file_fields fields extraFields env) in
      (rank (Logger.level L) <= rank level <->
         line ∈ to_output (Logger.output L) (emitted st st')) /\
      (rank level < rank (Logger.level L) ->
         to_output (Logger.output L) (emitted st st') = []) /\
      (forall f, Logger.file L = Some f -> to_file f (emitted st st') = [plain])).
Proof.
  intros HL logID fields. split.
  - destruct (trolog_log_effect l L level message extraFields env st HL)
      as (st' & Hrun & Hid & _ & _ & Hem).
    exists st'. split; [done|]. cbn zeta.
    rewrite Hem, Hid, trolog_buildLogMessage_plain.
    apply sinks_of_emission.
  - destruct (trologger_log_effect l L level message extraFields env st HL)
      as (st' & Hrun & Hid & _ & _ & Hem).
    exists st'. split; [done|]. cbn zeta.
    rewrite Hem, Hid, trologger_buildLogMessage_plain.
    apply sinks_of_emission.
Qed.

(** ** Sequence IDs of a run *)

Lemma wrap32_idem (a b : Z) : wrap32 (wrap32 a + b) = wrap32 (a + b).
Proof.
  unfold wrap32. f_equal.
  replace ((a + 2 ^ 31) mod 2 ^ 32 - 2 ^ 31 + b + 2 ^ 31)
    with ((a + 2 ^ 31) mod 2 ^ 32 + b) by lia.
  rewrite Zplus_mod_idemp_l. f_equal. lia.
Qed.

Lemma wrap32_small (a : Z) : is_int32 a -> wrap32 a = a.
Proof.
  unfold is_int32, MinInt32, MaxInt32, wrap32. intros H.
  rewrite Z.mod_small by lia. lia.
Qed.

Lemma wrap32_range (a : Z) : is_int32 (wrap32 a).
Proof.
  unfold is_int32, MinInt32, MaxInt32, wrap32.
  pose proof (Z.mod_pos_bound (a + 2 ^ 31) (2 ^ 32)). lia.
Qed.

Lemma wrap32_inj (a b : Z) : wrap32 a = wrap32 b -> Z.abs (a - b) < 2 ^ 32 -> a = b.
Proof.
  unfold wrap32. intros H Hd.
  assert (Hm : (a + 2 ^ 31) mod 2 ^ 32 = (b + 2 ^ 31) mod 2 ^ 32) by lia.
  pose proof (Z.div_mod (a + 2 ^ 31) (2 ^ 32)).
  pose proof (Z.div_mod (b + 2 ^ 31) (2 ^ 32)).
  nia.
Qed.

(** The IDs that [n] calls take from the counter value [c], in order. *)
Lemma issued_ids_NoDup (c : Z) (n : nat) :
  Z.of_nat n <= 2 ^ 32 ->
  NoDup ((fun k => wrap32 (c + Z.of_nat k)) <$> seq 1 n).
Proof.
  intros Hn. apply NoDup_fmap_2_strong; [|apply NoDup_seq].
  intros j k [Hj1 Hj2]%elem_of_seq [Hk1 Hk2]%elem_of_seq Heq.
  apply wrap32_inj in Heq; lia.
Qed.

Lemma issued_ids_no_wrap (c : Z) (n : nat) :
  is_int32 c -> c + Z.of_nat n <= MaxInt32 ->
  (fun k => wrap32 (c + Z.of_nat k)) <$> seq 1 n = (fun k => c + Z.of_nat k) <$> seq 1 n.
Proof.
  intros Hc Hn. apply list_fmap_ext. intros i k [Hk1 Hk2]%lookup_seq.
  apply wrap32_small. unfold is_int32 in *. lia.
Qed.

Section Runs.
Variable log :
  loc -> LogLevel -> string -> gmap string string -> Env -> State -> outcome State.
Hypothesis log_step :
  forall l L level message extraFields env st,
    loggers st !! l = Some L ->
    exists st',
      log l level message extraFields env st = Ok st' /\
      logIDCounter st' = wrap32 (logIDCounter st + 1) /\
      loggers st' = loggers st.

Lemma run_calls_ids (calls : list Call) (st : State) :
  Forall (fun c => is_Some (loggers st !! call_logger c)) calls ->
  exists sts,
    run_calls log calls st = Ok sts /\
    length sts = length calls /\
    logIDCounter <$> sts =
      (fun k => wrap32 (logIDCounter st + Z.of_nat k)) <$> seq 1 (length calls).
Proof.
  revert st. induction calls as [|c calls IH]; intros st Hall.
  - by exists [].
  - apply Forall_cons in Hall as [[L HL] Hall].
    destruct (log_step _ _ (call_level c) (call_message c) (call_extra c)
                (call_env c) _ HL) as (st' & Hrun & Hid & Hheap).
    destruct (IH st') as (sts & Hruns & Hlen & Hids).
    { eapply Forall_impl; [exact Hall|]. intros c'. by rewrite Hheap. }
    exists (st' :: sts). cbn [run_calls]. rewrite Hrun. cbn [mbind outcome_bind].
    rewrite Hruns. cbn [mbind outcome_bind]. split; [done|].
    split; [simpl; by rewrite Hlen|].
    cbn [length seq fmap list_fmap]. f_equal; [by rewrite Hid|].
    rewrite Hids, <- (fmap_S_seq 1), <- list_fmap_compose.
    apply list_fmap_ext. intros i k _. cbn. rewrite Hid, wrap32_idem.
    f_equal. lia.
Qed.
End Runs.

(** C3. Every emission call obtains its sequence ID by incrementing the
    shared process-wide counter by exactly one, so the IDs issued by N
    emission calls with no other emitter active form a set of N distinct
    consecutive integers, without gaps or duplicates, and successive IDs are
    strictly increasing (modulo 32-bit wraparound).  The calls of a run are
    taken in the order in which they perform the atomic increment; the ID of
    a call is the counter value it leaves, which is the ID its lines carry.
    Both variants. *)
Theorem sequence_ids_consecutive (calls : list Call) (st : State) :
  Forall (fun c => is_Some (loggers st !! call_logger c)) calls ->
  let c := logIDCounter st in
  let n := length calls in
  let consecutive (ids : list Z) :=
    ids = (fun k => wrap32 (c + Z.of_nat k)) <$> seq 1 n /\
    (Z.of_nat n <= 2 ^ 32 -> NoDup ids) /\
    (is_int32 c -> c + Z.of_nat n <= MaxInt32 ->
       ids = (fun k => c + Z.of_nat k) <$> seq 1 n) in
  (forall l L level message extraFields env s,
      loggers s !! l = Some L ->
      (exists s', Trolog.log l level message extraFields env s = Ok s' /\
         logIDCounter s' = wrap32 (logIDCounter s + 1) /\
         emitted s s' =
           file_part L (Trolog.buildLogMessage level (time_Now env) message
                          (read_map (Logger.fields L) s) extraFields false
                          (logIDCounter s') env) ++
           console_part L level
             (trolog_console_line level (time_Now env) message
                (read_map (Logger.fields L) s) extraFields (logIDCounter s') env)) /\
      (exists s', TroLogger.log l level message extraFields env s = Ok s' /\
         logIDCounter s' = wrap32 (logIDCounter s + 1) /\
         emitted s s' =
           file_part L (TroLogger.buildLogMessage level (time_Now env) message
                          (read_map (Logger.fields L) s) extraFields false
                          (logIDCounter s') env) ++
           console_part L level
             (trologger_console_line level (time_Now env) message
                (read_map (Logger.fields L) s) extraFields (logIDCounter s') env))) /\
  (exists sts, run_calls Trolog.log calls st = Ok sts /\
     length sts = n /\ consecutive (logIDCounter <$> sts)) /\
  (exists sts, run_calls TroLogger.log calls st = Ok sts /\
     length sts = n /\ consecutive (logIDCounter <$> sts)).
Proof.
  intros Hall c n consecutive.
  assert (Hcons : forall ids,
             ids = (fun k => wrap32 (c + Z.of_nat k)) <$> seq 1 n -> consecutive ids).
  { intros ids ->. split; [done|]. split.
    - apply issued_ids_NoDup.
    - apply issued_ids_no_wrap. }
  split; [|split].
  - intros l L level message extraFields env s HL. split.
    + destruct (trolog_log_effect l L level message extraFields env s HL)
        as (s' & ? & ? & _ & _ & ?). by exists s'.
    + destruct (trologger_log_effect l L level message extraFields env s HL)
        as (s' & ? & ? & _ & _ & ?). by exists s'.
  - destruct (run_calls_ids Trolog.log) with (calls := calls) (st := st)
      as (sts & Hrun & Hlen & Hids); [|done|].
    { intros l L level message extraFields env s HL.
      destruct (trolog_log_effect l L level message extraFields env s HL)
        as (s' & ? & ? & ? & _). by exists s'. }
    exists sts. auto.
  - destruct (run_calls_ids TroLogger.log) with (calls := calls) (st := st)
      as (sts & Hrun & Hlen & Hids); [|done|].
    { intros l L level message extraFields env s HL.
      destruct (trologger_log_effect l L level message extraFields env s HL)
        as (s' & ? & ? & ? & _). by exists s'. }
    exists sts. auto.
Qed.

(** ** Formatted emissions *)

Lemma trolog_logf_effect level l L format args env st st' :
  loggers st !! l = Some L ->
  Trolog.logf level l format args env st = Ok st' ->
  loggers st' = loggers st /\ maps st' = maps st.
Proof.
  intros HL. unfold Trolog.logf.
  destruct (Trolog.formatMessage format args) as [message|]; [|done].
  cbn [mbind outcome_bind]. intros Hrun.
  destruct (trolog_log_effect l L level message ∅ env st HL)
    as (st2 & Hrun2 & _ & ? & ? & _).
  rewrite Hrun in Hrun2. by injection Hrun2 as ->.
Qed.

Lemma trologger_logf_effect level l L format args env st st' :
  loggers st !! l = Some L ->
  TroLogger.logf level l format args env st = Ok st' ->
  loggers st' = loggers st /\ maps st' = maps st.
Proof.
  intros HL. unfold TroLogger.logf.
  destruct (TroLogger.formatMessage format args) as [message|]; [|done].
  cbn [mbind outcome_bind]. intros Hrun.
  destruct (trologger_log_effect l L level message ∅ env st HL)
    as (st2 & Hrun2 & _ & ? & ? & _).
  rewrite Hrun in Hrun2. by injection Hrun2 as ->.
Qed.

(** C10. No emission call (log, Debug/Info/Warn/Error/Panic/Trace or their
    ...f variants) modifies the logger's own state: after any emission the
    logger's minimum level, color flag, primary sink, file handle and the
    contents of its field store are as before the call (and so are all other
    loggers and field maps); only the sequence counter, the buffer pool and
    the sinks change.  The calls without a format string always return.
    Both variants. *)
Theorem emission_leaves_logger_unchanged
    (l : loc) (L : Logger) (st : State) (env : Env) (level : LogLevel)
    (message format : string) (args : list Value) (extraFields : gmap string string) :
  loggers st !! l = Some L ->
  let unchanged (st' : State) :=
    loggers st' = loggers st /\ maps st' = maps st /\
    loggers st' !! l = Some L /\
    read_map (Logger.fields L) st' = read_map (Logger.fields L) st in
  Forall (fun call : State -> outcome State =>
            exists st', call st = Ok st' /\ unchanged st')
    [ Trolog.log l level message extraFields env;
      Trolog.Debug l message env; Trolog.Info l message env;
      Trolog.Warn l message env; Trolog.Error l message env;
      Trolog.Panic_ l message env; Trolog.Trace l message env;
      TroLogger.log l level message extraFields env;
      TroLogger.Debug l message env; TroLogger.Info l message env;
      TroLogger.Warn l message env; TroLogger.Error l message env;
      TroLogger.Panic_ l message env; TroLogger.Trace l message env ] /\
  Forall (fun call : State -> outcome State =>
            forall st', call st = Ok st' -> unchanged st')
    [ Trolog.Debugf l format args env; Trolog.Infof l format args env;
      Trolog.Warnf l format args env; Trolog.Errorf l format args env;
      Trolog.Panicf l format args env; Trolog.Tracef l format args env;
      TroLogger.Debugf l format args env; TroLogger.Infof l format args env;
      TroLogger.Warnf l format args env; TroLogger.Errorf l format args env;
      TroLogger.Panicf l format args env; TroLogger.Tracef l format args env ].
Proof.
  intros HL unchanged.
  assert (Hun : forall st', loggers st' = loggers st -> maps st' = maps st -> unchanged st').
  { intros st' Hl Hm. unfold unchanged, read_map. by rewrite Hl, Hm. }
  unfold Trolog.Debug, Trolog.Info, Trolog.Warn, Trolog.Error, Trolog.Panic_,
    Trolog.Trace, TroLogger.Debug, TroLogger.Info, TroLogger.Warn, TroLogger.Error,
    TroLogger.Panic_, TroLogger.Trace, Trolog.Debugf, Trolog.Infof, Trolog.Warnf,
    Trolog.Errorf, Trolog.Panicf, Trolog.Tracef, TroLogger.Debugf, TroLogger.Infof,
    TroLogger.Warnf, TroLogger.Errorf, TroLogger.Panicf, TroLogger.Tracef.
  split.
  - repeat apply Forall_cons_2; try apply Forall_nil_2.
    all: lazymatch goal with
         | |- exists st', Trolog.log _ ?lv ?m ?e _ _ = _ /\ _ =>
             destruct (trolog_log_effect l L lv m e env st HL)
               as (st' & Hrun & _ & ? & ? & _)
         | |- exists st', TroLogger.log _ ?lv ?m ?e _ _ = _ /\ _ =>
             destruct (trologger_log_effect l L lv m e env st HL)
               as (st' & Hrun & _ & ? & ? & _)
         end.
    all: exists st'; split; [exact Hrun | by apply Hun].
  - repeat apply Forall_cons_2; try apply Forall_nil_2.
    all: intros st' Hrun.
    all: lazymatch type of Hrun with
         | Trolog.logf ?lv _ _ _ _ _ = _ =>
             destruct (trolog_logf_effect lv l L format args env st st' HL Hrun)
         | TroLogger.logf ?lv _ _ _ _ _ = _ =>
             destruct (trologger_logf_effect lv l L format args env st st' HL Hrun)
         end.
    all: by apply Hun.
Qed.

Lemma console_fields_keys fields extraFields env key :
  fields !! key = None -> extraFields !! key = None ->
  (key ∉ (console_fields fields extraFields env).*1) /\
  (key ∉ (file_fields fields extraFields env).*1).
Proof.
  intros Hf He. unfold console_fields, file_fields. rewrite !fmap_app.
  split; intros [Hin|Hin]%elem_of_app.
  all: apply list_elem_of_fmap in Hin as [[k v] [-> Hkv]].
  all: apply range_elem_of in Hkv; simpl in *; congruence.
Qed.

(** What [derive] leaves alone and what it adds. *)
Lemma derive_base st L key s base :
  loggers st !! base = Some L ->
  is_Some (maps st !! Logger.fields L) ->
  let st' := (derive st L key s).2 in
  loggers st' !! base = Some L /\
  read_map (Logger.fields L) st' = read_map (Logger.fields L) st /\
  (forall p, is_Some (loggers st !! p) -> loggers st' !! p = loggers st !! p) /\
  (forall p, is_Some (maps st !! p) -> maps st' !! p = maps st !! p) /\
  logIDCounter st' = logIDCounter st /\
  bufferPool st' = bufferPool st /\
  written st' = written st.
Proof.
  intros HL Hm. unfold derive. cbn [snd logIDCounter bufferPool loggers maps written].
  assert (Hl : forall p, is_Some (loggers st !! p) ->
                 <[fresh (dom (loggers st)) := Logger.mk (Logger.level L) (Logger.output L)
                     (Logger.file L) (Logger.colored L) (fresh (dom (maps st)))]>
                   (loggers st) !! p = loggers st !! p).
  { intros p Hp. apply lookup_insert_ne. intros <-.
    apply elem_of_dom in Hp. by apply is_fresh in Hp. }
  assert (Hmp : forall p, is_Some (maps st !! p) ->
                 <[fresh (dom (maps st)) := <[key := s]> (read_map (Logger.fields L) st)]>
                   (maps st) !! p = maps st !! p).
  { intros p Hp. apply lookup_insert_ne. intros <-.
    apply elem_of_dom in Hp. by apply is_fresh in Hp. }
  repeat split; try done.
  - rewrite Hl by eauto. done.
  - unfold read_map at 1. cbn [maps]. by rewrite Hmp.
Qed.

Lemma derive_new st L key s :
  let new := (derive st L key s).1 in
  let st' := (derive st L key s).2 in
  loggers st !! new = None /\
  exists L',
    loggers st' !! new = Some L' /\
    Logger.level L' = Logger.level L /\
    Logger.output L' = Logger.output L /\
    Logger.file L' = Logger.file L /\
    Logger.colored L' = Logger.colored L /\
    maps st !! Logger.fields L' = None /\
    read_map (Logger.fields L') st' = <[key := s]> (read_map (Logger.fields L) st).
Proof.
  unfold derive. cbn [fst snd logIDCounter bufferPool loggers maps written].
  split; [apply not_elem_of_dom, is_fresh|].
  eexists. split; [apply lookup_insert_eq|].
  cbn [Logger.level Logger.output Logger.file Logger.colored Logger.fields].
  repeat split; [apply not_elem_of_dom, is_fresh|].
  unfold read_map at 1. cbn [maps]. by rewrite lookup_insert_eq.
Qed.

(** C4. For every logger base, key k and value v, AddField(k, v) leaves
    base completely unmodified, so that emitting from base afterwards writes
    what it would have written before and lists no field k that base did
    not have; it returns a new Logger whose field store is a copy of base's
    entries plus the one new entry k -> stringify(v), and which shares
    base's minimum level, primary sink, file handle and color setting.
    This holds for every value in part_001.  In logger.go it holds for the
    values that valueToString renders, and for the others AddField returns
    no logger: a panic of valueToString is AddField's, so that
    AddField(k, 12345678901) and AddField(k, -1234567890) panic with an
    index out of range in intToString. *)
Theorem AddField_copies_and_leaves_base
    (base : loc) (L : Logger) (key : string) (value : Value) (order : list nat)
    (st : State) :
  loggers st !! base = Some L ->
  is_Some (maps st !! Logger.fields L) ->
  let derived (s : string) (new : loc) (st' : State) : Prop :=
    (loggers st' !! base = Some L /\
     read_map (Logger.fields L) st' = read_map (Logger.fields L) st /\
     (forall p, is_Some (loggers st !! p) -> loggers st' !! p = loggers st !! p) /\
     (forall p, is_Some (maps st !! p) -> maps st' !! p = maps st !! p) /\
     logIDCounter st' = logIDCounter st /\
     bufferPool st' = bufferPool st /\
     written st' = written st) /\
    (loggers st !! new = None /\
     exists L',
       loggers st' !! new = Some L' /\
       Logger.level L' = Logger.level L /\
       Logger.output L' = Logger.output L /\
       Logger.file L' = Logger.file L /\
       Logger.colored L' = Logger.colored L /\
       maps st !! Logger.fields L' = None /\
       read_map (Logger.fields L') st' = <[key := s]> (read_map (Logger.fields L) st)) /\
    (forall level message extraFields env,
        (exists s1 s2,
            Trolog.log base level message extraFields env st = Ok s1 /\
            Trolog.log base level message extraFields env st' = Ok s2 /\
            emitted st' s2 = emitted st s1) /\
        (exists s1 s2,
            TroLogger.log base level message extraFields env st = Ok s1 /\
            TroLogger.log base level message extraFields env st' = Ok s2 /\
            emitted st' s2 = emitted st s1) /\
        (read_map (Logger.fields L) st !! key = None -> extraFields !! key = None ->
         (key ∉ (console_fields (read_map (Logger.fields L) st') extraFields env).*1) /\
         (key ∉ (file_fields (read_map (Logger.fields L) st') extraFields env).*1))) in
  (exists new st',
      Trolog.AddField base key value order st = Ok (new, st') /\
      derived (Trolog.valueToString value) new st') /\
  match TroLogger.valueToString value with
  | Ok s =>
      exists new st',
        TroLogger.AddField base key value order st = Ok (new, st') /\
        derived s new st'
  | Panic f => TroLogger.AddField base key value order st = Panic f
  end /\
  TroLogger.AddField base key (VInt 12345678901) order st = Panic IndexOutOfRange /\
  TroLogger.AddField base key (VInt (-1234567890)) order st = Panic IndexOutOfRange.
Proof.
  intros HL Hm derived.
  assert (Hd : forall s, derived s (derive st L key s).1 (derive st L key s).2).
  { intros s.
    pose proof (derive_base st L key s base HL Hm) as Hbase.
    pose proof (derive_new st L key s) as Hnew.
    cbn zeta in Hbase, Hnew.
    split; [exact Hbase|]. split; [exact Hnew|].
    destruct Hbase as (HL' & Hread & _ & _ & Hc & _ & _).
    intros level message extraFields env. split; [|split].
    - destruct (trolog_log_effect base L level message extraFields env st HL)
        as (s1 & Hr1 & Hc1 & _ & _ & He1).
      destruct (trolog_log_effect base L level message extraFields env _ HL')
        as (s2 & Hr2 & Hc2 & _ & _ & He2).
      exists s1, s2. split; [done|]. split; [done|].
      rewrite He1, He2, Hc1, Hc2, Hc, Hread. done.
    - destruct (trologger_log_effect base L level message extraFields env st HL)
        as (s1 & Hr1 & Hc1 & _ & _ & He1).
      destruct (trologger_log_effect base L level message extraFields env _ HL')
        as (s2 & Hr2 & Hc2 & _ & _ & He2).
      exists s1, s2. split; [done|]. split; [done|].
      rewrite He1, He2, Hc1, Hc2, Hc, Hread. done.
    - rewrite Hread. apply console_fields_keys. }
  split.
  - exists (derive st L key (Trolog.valueToString value)).1,
           (derive st L key (Trolog.valueToString value)).2.
    split; [|apply Hd].
    rewrite (trolog_AddField_spec base L) by done. by destruct (derive _ _ _ _).
  - rewrite !(trologger_AddField_spec base L) by done.
    split; [|split; reflexivity].
    destruct (TroLogger.valueToString value) as [s|f]; [|done].
    exists (derive st L key s).1, (derive st L key s).2.
    split; [|apply Hd]. by destruct (derive _ _ _ _).
Qed.

(** ** Construction *)

Lemma trolog_NewLogger_spec levelStr output colored os_OpenFile st :
  Trolog.NewLogger levelStr output colored "" os_OpenFile st =
  let fields := fresh (dom (maps st)) in
  let l := fresh (dom (loggers st)) in
  (l, mkState (logIDCounter st) (bufferPool st)
        (<[l := Logger.mk (Trolog.logLevelFromString levelStr) output None colored fields]>
           (loggers st))
        (<[fields := ∅]> (maps st)) (written st)).
Proof. done. Qed.

Lemma trologger_NewLogger_spec level output colored os_OpenFile st :
  TroLogger.NewLogger level output colored "" os_OpenFile st =
  let fields := fresh (dom (maps st)) in
  let l := fresh (dom (loggers st)) in
  ((Some l, None),
   mkState (logIDCounter st) (bufferPool st)
     (<[l := Logger.mk level output None colored fields]> (loggers st))
     (<[fields := ∅]> (maps st)) (written st)).
Proof. done. Qed.

Lemma comma_empty : comma ∅ ∅ = "".
Proof. done. Qed.

Lemma console_fields_empty env : console_fields ∅ ∅ env = [].
Proof. unfold console_fields. by rewrite !range_empty. Qed.

(** C1, amended.  In part_001 (package trolog), for a logger constructed
    with minimum level Info, color disabled, no file and no fields, the
    first emission Info("hello world!") (counter at 0, timestamp without
    ESC) writes exactly one line to the primary sink, which with the ANSI
    escape sequences removed is [ID:1 INFO <timestamp> hello world!\n]:
    sequence ID, 4-character level code, timestamp, message, no comma and no
    fields.  Every plain line has the layout
    [ID:<sequenceID> <LEVEL4> <timestamp> <message>[, k: "v" ...]\n], and so
    has every console line once its escape sequences are removed.  In
    logger.go (package troLogger) the layout is
    [<LEVEL4> <timestamp> ID:<sequenceID> <message>[, k: "v" ...]\n]
    instead, and the same emission gives
    [INFO <timestamp> ID:1 hello world!\n]. *)
Theorem first_info_line_layout
    (sink : Writer) (os_OpenFile : string -> option File) (env : Env) (st : State) :
  logIDCounter st = 0 ->
  has_esc (time_Now env) = false ->
  (let '(l, st1) := Trolog.NewLogger "info" sink false "" os_OpenFile st in
   exists st' line,
     Trolog.Info l "hello world!" env st1 = Ok st' /\
     emitted st1 st' = [ToOutput sink line] /\
     strip_ansi line = "ID:1 INFO " +:+ time_Now env +:+ " hello world!" +:+ newline) /\
  (let '(r, st1) := TroLogger.NewLogger InfoLevel sink false "" os_OpenFile st in
   exists l st' line,
     r = (Some l, None) /\
     TroLogger.Info l "hello world!" env st1 = Ok st' /\
     emitted st1 st' = [ToOutput sink line] /\
     strip_ansi line = "INFO " +:+ time_Now env +:+ " ID:1 hello world!" +:+ newline) /\
  (forall level timestamp message fields extraFields logID env,
      String.length (levelString level) = 4%nat /\
      Trolog.buildLogMessage level timestamp message fields extraFields false logID env =
        "ID:" +:+ Itoa logID +:+ " " +:+ levelString level +:+ " " +:+ timestamp +:+ " "
          +:+ message +:+ comma fields extraFields
          +:+ fields_text (file_fields fields extraFields env) +:+ newline /\
      TroLogger.buildLogMessage level timestamp message fields extraFields false logID env =
        levelString level +:+ " " +:+ timestamp +:+ " " +:+ "ID:" +:+ Itoa logID +:+ " "
          +:+ message +:+ comma fields extraFields
          +:+ fields_text (file_fields fields extraFields env) +:+ newline /\
      (plain_record timestamp message fields extraFields ->
       strip_ansi (trolog_console_line level timestamp message fields extraFields logID env) =
         "ID:" +:+ Itoa logID +:+ " " +:+ levelString level +:+ " " +:+ timestamp +:+ " "
           +:+ message +:+ comma fields extraFields
           +:+ fields_text (console_fields fields extraFields env) +:+ newline /\
       strip_ansi (trologger_console_line level timestamp message fields extraFields logID env) =
         levelString level +:+ " " +:+ timestamp +:+ " " +:+ "ID:" +:+ Itoa logID +:+ " "
           +:+ message +:+ comma fields extraFields
           +:+ fields_text (console_fields fields extraFields env) +:+ newline)).
Proof.
  intros Hc Ht. split; [|split].
  - rewrite trolog_NewLogger_spec. cbn zeta.
    set (L := Logger.mk _ _ _ _ _). set (st1 := mkState _ _ _ _ _).
    assert (HL : loggers st1 !! fresh (dom (loggers st)) = Some L)
      by apply lookup_insert_eq.
    assert (Hf : read_map (Logger.fields L) st1 = ∅).
    { unfold read_map, st1, L. cbn [maps Logger.fields]. by rewrite lookup_insert_eq. }
    destruct (trolog_log_effect _ L InfoLevel "hello world!" ∅ env st1 HL)
      as (st' & Hrun & Hid & _ & _ & Hem).
    exists st'. eexists. split; [exact Hrun|]. split; [exact Hem|].
    rewrite Hid, Hf. unfold st1 at 1. cbn [logIDCounter]. rewrite Hc.
    unfold trolog_console_line. rewrite <- (sapp_nil_r (id_first_line _ _ _ _ _ _)).
    rewrite strip_id_first_line, console_fields_empty, comma_empty by done.
    change (wrap32 (0 + 1)) with 1. change (strip_ansi "") with "".
    rewrite sapp_nil_r. reflexivity.
  - rewrite trologger_NewLogger_spec. cbn zeta.
    set (L := Logger.mk _ _ _ _ _). set (st1 := mkState _ _ _ _ _).
    assert (HL : loggers st1 !! fresh (dom (loggers st)) = Some L)
      by apply lookup_insert_eq.
    assert (Hf : read_map (Logger.fields L) st1 = ∅).
    { unfold read_map, st1, L. cbn [maps Logger.fields]. by rewrite lookup_insert_eq. }
    destruct (trologger_log_effect _ L InfoLevel "hello world!" ∅ env st1 HL)
      as (st' & Hrun & Hid & _ & _ & Hem).
    eexists. exists st'. eexists. split; [done|]. split; [exact Hrun|]. split; [exact Hem|].
    rewrite Hid, Hf. unfold st1 at 1. cbn [logIDCounter]. rewrite Hc.
    unfold trologger_console_line. rewrite <- (sapp_nil_r (level_first_line _ _ _ _ _ _)).
    rewrite strip_level_first_line, console_fields_empty, comma_empty by done.
    change (wrap32 (0 + 1)) with 1. change (strip_ansi "") with "".
    rewrite sapp_nil_r. reflexivity.
  - intros level timestamp message fields extraFields logID env'.
    split; [apply levelString_length|].
    split; [apply trolog_buildLogMessage_plain|].
    split; [apply trologger_buildLogMessage_plain|].
    intros (Hts & Hm & Hfs & Hes).
    unfold trolog_console_line, trologger_console_line.
    rewrite <- (sapp_nil_r (id_first_line _ _ _ _ _ _)).
    rewrite <- (sapp_nil_r (level_first_line _ _ _ _ _ _)).
    rewrite strip_id_first_line, strip_level_first_line
      by auto using console_fields_plain.
    change (strip_ansi "") with "". rewrite !sapp_nil_r. done.
Qed.

(** C1, counterexample.  logger.go: the first Info("hello world!") of a
    logger with minimum level Info, color disabled, no file and no fields
    writes a line that is not [ID:1 INFO <timestamp> hello world!\n], also
    with its escape sequences removed: the level and the timestamp come
    before the ID.  part_001: the line has that layout but carries the
    color codes of the level although color is disabled. *)
Lemma first_info_line_counterexample :
  (let '(r, st1) :=
     TroLogger.NewLogger InfoLevel 1%nat false "" (fun _ => None) empty_state in
   exists l st',
     r = (Some l, None) /\
     TroLogger.Info l "hello world!" example_env st1 = Ok st' /\
     to_output 1%nat (written st') <>
       ["ID:1 INFO " +:+ example_time +:+ " hello world!" +:+ newline] /\
     strip_ansi <$> to_output 1%nat (written st') =
       ["INFO " +:+ example_time +:+ " ID:1 hello world!" +:+ newline]) /\
  (let '(l, st1) :=
     Trolog.NewLogger "info" 1%nat false "" (fun _ => None) empty_state in
   exists st',
     Trolog.Info l "hello world!" example_env st1 = Ok st' /\
     to_output 1%nat (written st') <>
       ["ID:1 INFO " +:+ example_time +:+ " hello world!" +:+ newline]).
Proof.
  split.
  - change (TroLogger.NewLogger InfoLevel 1%nat false "" (fun _ => None) empty_state)
      with ((Some 1%positive, @None TroLogger.error), plain_logger_state).
    destruct (trologger_log_effect 1%positive plain_logger InfoLevel "hello world!" ∅
                example_env plain_logger_state) as (st' & Hrun & Hid & _ & _ & Hem);
      [reflexivity|].
    exists 1%positive, st'. split; [reflexivity|]. split; [exact Hrun|].
    change (written st') with (emitted plain_logger_state st'). rewrite Hem, Hid.
    split; [vm_compute; intros [=] | vm_compute; reflexivity].
  - change (Trolog.NewLogger "info" 1%nat false "" (fun _ => None) empty_state)
      with (1%positive, plain_logger_state).
    destruct (trolog_log_effect 1%positive plain_logger InfoLevel "hello world!" ∅
                example_env plain_logger_state) as (st' & Hrun & Hid & _ & _ & Hem);
      [reflexivity|].
    exists st'. split; [exact Hrun|].
    change (written st') with (emitted plain_logger_state st'). rewrite Hem, Hid.
    vm_compute; intros [=].
Qed.

(** C5.  The plain (file) rendering of a record has no ESC byte unless the
    record's own text has one; the console rendering has one for every
    record, whatever the colorEnabled flag: a logger constructed with color
    disabled does write escape codes to the primary sink.  Both variants. *)
Theorem console_line_colored_without_flag
    (l : loc) (L : Logger) (level : LogLevel) (message : string)
    (extraFields : gmap string string) (env : Env) (st : State) :
  loggers st !! l = Some L ->
  Logger.colored L = false ->
  rank (Logger.level L) <= rank level ->
  (exists st' line,
      Trolog.log l level message extraFields env st = Ok st' /\
      to_output (Logger.output L) (emitted st st') = [line] /\
      has_esc line = true /\
      forall f, Logger.file L = Some f ->
        plain_record (time_Now env) message (read_map (Logger.fields L) st) extraFields ->
        exists plain, to_file f (emitted st st') = [plain] /\ has_esc plain = false) /\
  (exists st' line,
      TroLogger.log l level message extraFields env st = Ok st' /\
      to_output (Logger.output L) (emitted st st') = [line] /\
      has_esc line = true /\
      forall f, Logger.file L = Some f ->
        plain_record (time_Now env) message (read_map (Logger.fields L) st) extraFields ->
        exists plain, to_file f (emitted st st') = [plain] /\ has_esc plain = false).
Proof.
  intros HL Hcol Hrank.
  assert (Hout : forall line plain,
             to_output (Logger.output L) (file_part L plain ++ console_part L level line)
             = [line]).
  { intros line plain.
    rewrite to_output_app, to_output_file_part, to_output_console_part, Hcol.
    rewrite (proj2 (Z.leb_le _ _) Hrank), andb_false_r. done. }
  assert (Hfile : forall line plain f, Logger.file L = Some f ->
             to_file f (file_part L plain ++ console_part L level line) = [plain]).
  { intros line plain f Hf.
    by rewrite to_file_app, to_file_console_part, (to_file_file_part f). }
  split.
  - destruct (trolog_log_effect l L level message extraFields env st HL)
      as (st' & Hrun & _ & _ & _ & Hem).
    exists st'. eexists. split; [exact Hrun|]. rewrite Hem.
    split; [apply Hout|]. split; [apply has_esc_id_first_console|].
    intros f Hf (Hts & Hm & Hfs & Hes). eexists. split; [by apply Hfile|].
    rewrite trolog_buildLogMessage_plain. apply has_esc_id_first_plain; try done.
    apply Forall_app; split; by apply range_plain.
  - destruct (trologger_log_effect l L level message extraFields env st HL)
      as (st' & Hrun & _ & _ & _ & Hem).
    exists st'. eexists. split; [exact Hrun|]. rewrite Hem.
    split; [apply Hout|]. split; [apply has_esc_level_first_console|].
    intros f Hf (Hts & Hm & Hfs & Hes). eexists. split; [by apply Hfile|].
    rewrite trologger_buildLogMessage_plain. apply has_esc_level_first_plain; try done.
    apply Forall_app; split; by apply range_plain.
Qed.

(** The failing input of C5: color disabled, Info("x"). *)
Lemma console_line_colored_without_flag_witness :
  Logger.colored example_logger = false /\
  exists st' line,
    Trolog.Info 1%positive "x" example_env example_state = Ok st' /\
    to_output 1%nat (emitted example_state st') = [line] /\
    has_esc line = true.
Proof.
  split; [reflexivity|].
  destruct (console_line_colored_without_flag 1%positive example_logger InfoLevel "x" ∅
              example_env example_state)
    as [(st' & line & Hrun & Hout & Hesc & _) _].
  - reflexivity.
  - reflexivity.
  - vm_compute. discriminate.
  - exists st', line. split; [exact Hrun|]. split; [exact Hout|exact Hesc].
Defined.

(** ** The two lines of one record *)

Lemma fields_agree_small fields extraFields env :
  (size fields <= 1)%nat -> (size extraFields <= 1)%nat ->
  console_fields fields extraFields env = file_fields fields extraFields env.
Proof.
  intros Hf He. unfold console_fields, file_fields.
  by rewrite (range_small (order_fields env) (order_file_fields env)),
    (range_small (order_extra env) (order_file_extra env)).
Qed.

Lemma strip_trailing_reset (b : bool) : strip_ansi (received_text (if b then [reset] else [])) = "".
Proof. by destruct b. Qed.

(** C6, counterexample.  With two fields the two loops over the map may
    visit them in different orders, and then the console line, its escape
    sequences removed, is not the file line; and an escape sequence in the
    message is removed from the console line while the file line keeps it. *)
Lemma console_and_file_line_counterexample :
  (exists st' line plain,
      Trolog.Warn 1%positive "oops" other_order_env two_field_state = Ok st' /\
      to_output 1%nat (written st') = [line] /\
      to_file 7%nat (written st') = [plain] /\
      strip_ansi line <> plain) /\
  (exists st' line plain,
      TroLogger.Warn 1%positive "oops" other_order_env two_field_state = Ok st' /\
      to_output 1%nat (written st') = [line] /\
      to_file 7%nat (written st') = [plain] /\
      strip_ansi line <> plain) /\
  (exists st' line plain,
      Trolog.Warn 1%positive bold_message example_env example_state = Ok st' /\
      to_output 1%nat (written st') = [line] /\
      to_file 7%nat (written st') = [plain] /\
      strip_ansi line <> plain).
Proof.
  repeat split.
  all: vm_compute; do 3 eexists; split; [reflexivity|].
  all: split; [reflexivity|]; split; [reflexivity|]; intros [=].
Qed.

(** C6, amended.  For every record written to both sinks whose own text
    (timestamp, message, field keys and values) holds no ESC byte, and for
    which the loops of the two renderings visit the fields in the same
    order (as they must when the logger and the call have at most one field
    each), the plain line written to the file and the bytes written to the
    console are identical once the ANSI escape sequences are removed from
    the console's; so are the file line and the console line alone.  Both
    variants. *)
Theorem console_line_is_file_line_up_to_escapes
    (l : loc) (L : Logger) (f : File) (level : LogLevel) (message : string)
    (extraFields : gmap string string) (env : Env) (st : State) :
  loggers st !! l = Some L ->
  Logger.file L = Some f ->
  rank (Logger.level L) <= rank level ->
  plain_record (time_Now env) message (read_map (Logger.fields L) st) extraFields ->
  console_fields (read_map (Logger.fields L) st) extraFields env =
    file_fields (read_map (Logger.fields L) st) extraFields env \/
  ((size (read_map (Logger.fields L) st) <= 1)%nat /\ (size extraFields <= 1)%nat) ->
  (exists st' line rest plain,
      Trolog.log l level message extraFields env st = Ok st' /\
      to_output (Logger.output L) (emitted st st') = line :: rest /\
      to_file f (emitted st st') = [plain] /\
      strip_ansi line = plain /\
      strip_ansi (received_text (line :: rest)) = plain) /\
  (exists st' line rest plain,
      TroLogger.log l level message extraFields env st = Ok st' /\
      to_output (Logger.output L) (emitted st st') = line :: rest /\
      to_file f (emitted st st') = [plain] /\
      strip_ansi line = plain /\
      strip_ansi (received_text (line :: rest)) = plain).
Proof.
  intros HL Hf Hrank (Hts & Hm & Hfs & Hes) Horder.
  assert (Hsame : console_fields (read_map (Logger.fields L) st) extraFields env =
                  file_fields (read_map (Logger.fields L) st) extraFields env).
  { destruct Horder as [?|[? ?]]; [done|by apply fields_agree_small]. }
  assert (Hplain := console_fields_plain _ _ env Hfs Hes).
  assert (Hout : forall line plain,
             to_output (Logger.output L) (file_part L plain ++ console_part L level line)
             = line :: (if (bool_decide (level = WarnLevel) || bool_decide (level = ErrorLevel))
                           && Logger.colored L then [reset] else [])).
  { intros line plain.
    rewrite to_output_app, to_output_file_part, to_output_console_part.
    by rewrite (proj2 (Z.leb_le _ _) Hrank). }
  assert (Hfile : forall line plain,
             to_file f (file_part L plain ++ console_part L level line) = [plain]).
  { intros line plain.
    by rewrite to_file_app, to_file_console_part, (to_file_file_part f). }
  split.
  - destruct (trolog_log_effect l L level message extraFields env st HL)
      as (st' & Hrun & _ & _ & _ & Hem).
    exists st'. do 3 eexists. split; [exact Hrun|]. rewrite Hem.
    split; [apply Hout|]. split; [apply Hfile|].
    rewrite trolog_buildLogMessage_plain, <- Hsame. unfold trolog_console_line.
    split.
    + rewrite <- (sapp_nil_r (id_first_line _ (console_level _) _ _ _ _)).
      rewrite strip_id_first_line by done. apply sapp_nil_r.
    + cbn [received_text foldr]. rewrite strip_id_first_line by done.
      fold (received_text (if (bool_decide (level = WarnLevel) || bool_decide (level = ErrorLevel))
                              && Logger.colored L then [reset] else [])).
      rewrite strip_trailing_reset. apply sapp_nil_r.
  - destruct (trologger_log_effect l L level message extraFields env st HL)
      as (st' & Hrun & _ & _ & _ & Hem).
    exists st'. do 3 eexists. split; [exact Hrun|]. rewrite Hem.
    split; [apply Hout|]. split; [apply Hfile|].
    rewrite trologger_buildLogMessage_plain, <- Hsame. unfold trologger_console_line.
    split.
    + rewrite <- (sapp_nil_r (level_first_line _ (console_level _) _ _ _ _)).
      rewrite strip_level_first_line by done. apply sapp_nil_r.
    + cbn [received_text foldr]. rewrite strip_level_first_line by done.
      fold (received_text (if (bool_decide (level = WarnLevel) || bool_decide (level = ErrorLevel))
                              && Logger.colored L then [reset] else [])).
      rewrite strip_trailing_reset. apply sapp_nil_r.
Qed.

(** ** Stringification *)

Lemma array_store_length buf n c buf' :
  TroLogger.array_store buf n c = Ok buf' -> length buf' = length buf.
Proof.
  unfold TroLogger.array_store. destruct (_ <? _)%nat; [|done].
  intros [= <-]. apply length_insert.
Qed.

Lemma intToString_digits_fuel fuel i n buf :
  (n <= length buf)%nat -> (length buf < fuel + n)%nat ->
  TroLogger.intToString_digits fuel i n buf <> Panic OutOfFuel.
Proof.
  revert i n buf. induction fuel as [|fuel IH]; intros i n buf Hn Hfuel; simpl.
  - lia.
  - destruct (0 <? i); [|done].
    destruct (TroLogger.array_store buf n _) as [buf'|f] eqn:Hst;
      cbn [mbind outcome_bind].
    + pose proof (array_store_length _ _ _ _ Hst) as Hlen.
      unfold TroLogger.array_store in Hst.
      destruct (Nat.ltb_spec n (length buf)); [|done].
      apply IH; lia.
    + unfold TroLogger.array_store in Hst. by destruct (_ <? _)%nat; simplify_eq.
Qed.

Lemma intToString_reverse_fuel count j n buf :
  TroLogger.intToString_reverse count j n buf <> Panic OutOfFuel.
Proof.
  revert j buf. induction count as [|count IH]; intros j buf; simpl; [done|].
  unfold TroLogger.array_load, TroLogger.array_store.
  repeat (case_match; cbn [mbind outcome_bind]; try done).
Qed.

(** The loop bound of the model is never reached: [intToString] returns or
    panics on an index. *)
Lemma intToString_terminates (i : Z) : TroLogger.intToString i <> Panic OutOfFuel.
Proof.
  unfold TroLogger.intToString. destruct (i =? 0); [done|].
  pose proof (intToString_digits_fuel 64 (if i <? 0 then wrap64 (- i) else i) 0
                (replicate 10 "000"%char)) as Hd.
  destruct (TroLogger.intToString_digits _ _ _ _) as [[n buf]|f];
    cbn [mbind outcome_bind].
  - destruct (i <? 0); cbn [mbind outcome_bind].
    + unfold TroLogger.array_store. destruct (_ <? _)%nat; cbn [mbind outcome_bind]; [|done].
      pose proof (intToString_reverse_fuel (S n / 2) 0 (S n) (<[n:="-"%char]> buf)).
      destruct (TroLogger.intToString_reverse _ _ _ _); cbn [mbind outcome_bind];
        congruence.
    + pose proof (intToString_reverse_fuel (n / 2) 0 n buf).
      destruct (TroLogger.intToString_reverse _ _ _ _); cbn [mbind outcome_bind];
        congruence.
  - intros [= ->]. apply Hd; [simpl; lia | simpl; lia | done].
Qed.

(** C7.  stringify maps a string to itself, true and false to "true" and
    "false", the float 0.0 to "0.00", a value of an unsupported type to
    "unknown", and the floats 3.146 and 3.14159 to "3.14" (truncation, not
    rounding).  It does not map every float to a fixed two-decimal-place
    representation: a negative float gets the sign of its fraction in the
    middle of the text, -0.5 becomes "0.0-50" and -3.146 "-3.0-14".  Both
    variants. *)
Theorem stringify_cases_and_negative_floats :
  (forall s, Trolog.valueToString (VString s) = s /\
             TroLogger.valueToString (VString s) = Ok s) /\
  (forall b, Trolog.valueToString (VBool b) = (if b then "true" else "false") /\
             TroLogger.valueToString (VBool b) = Ok (if b then "true" else "false")) /\
  (Trolog.valueToString VOther = "unknown" /\
   TroLogger.valueToString VOther = Ok "unknown") /\
  (forall sign, Trolog.valueToString (VFloat (S754_zero sign)) = "0.00" /\
                TroLogger.valueToString (VFloat (S754_zero sign)) = Ok "0.00") /\
  (Trolog.valueToString (VFloat (f64_lit 3146 3)) = "3.14" /\
   TroLogger.valueToString (VFloat (f64_lit 3146 3)) = Ok "3.14") /\
  (Trolog.valueToString (VFloat (f64_lit 314159 5)) = "3.14" /\
   TroLogger.valueToString (VFloat (f64_lit 314159 5)) = Ok "3.14") /\
  (Trolog.valueToString (VFloat (f64_lit (-5) 1)) = "0.0-50" /\
   TroLogger.valueToString (VFloat (f64_lit (-5) 1)) = Ok "0.0-50") /\
  (Trolog.valueToString (VFloat (f64_lit (-3146) 3)) = "-3.0-14" /\
   TroLogger.valueToString (VFloat (f64_lit (-3146) 3)) = Ok "-3.0-14").
Proof.
  split; [done|]. split; [done|]. split; [done|].
  split; [by intros []|].
  repeat split; vm_compute; reflexivity.
Qed.

(** ** Decimal text *)

Lemma is_digit_cases r : is_digit r ->
  r = 0 \/ r = 1 \/ r = 2 \/ r = 3 \/ r = 4 \/ r = 5 \/ r = 6 \/ r = 7 \/ r = 8 \/ r = 9.
Proof. unfold is_digit. lia. Qed.

Lemma little_digits_are_digits fuel i : Forall is_digit (little_digits fuel i).
Proof.
  revert i. induction fuel as [|fuel IH]; intros i; simpl; [constructor|].
  destruct (Z.ltb_spec 0 i); [|constructor].
  constructor; [|apply IH].
  unfold is_digit. rewrite Z.rem_mod_nonneg by lia.
  pose proof (Z.mod_pos_bound i 10). lia.
Qed.

Lemma of_lu_cons r d : is_digit r ->
  DecimalPos.Unsigned.of_lu (lu_cons r d) = (Z.to_N r + 10 * DecimalPos.Unsigned.of_lu d)%N.
Proof.
  intros Hr. destruct (is_digit_cases r Hr) as [->|[->|[->|[->|[->|[->|[->|[->|[->| ->]]]]]]]]];
    reflexivity.
Qed.

Lemma of_lu_little_digits fuel i :
  0 <= i < 10 ^ Z.of_nat fuel ->
  DecimalPos.Unsigned.of_lu (lu_of_digits (little_digits fuel i)) = Z.to_N i.
Proof.
  revert i. induction fuel as [|fuel IH]; intros i Hi.
  - simpl in *. assert (i = 0) as -> by lia. done.
  - cbn [little_digits]. destruct (Z.ltb_spec 0 i) as [Hpos|Hle].
    + cbn [lu_of_digits foldr]. fold (lu_of_digits (little_digits fuel (i ÷ 10))).
      rewrite Z.rem_mod_nonneg, Z.quot_div_nonneg by lia.
      rewrite of_lu_cons.
      2:{ unfold is_digit. pose proof (Z.mod_pos_bound i 10). lia. }
      rewrite IH.
      2:{ rewrite Nat2Z.inj_succ, Z.pow_succ_r in Hi by lia.
          split; [apply Z.div_pos; lia|]. apply Z.div_lt_upper_bound; lia. }
      pose proof (Z.div_mod i 10). pose proof (Z.mod_pos_bound i 10).
      assert (0 <= i / 10) by (apply Z.div_pos; lia).
      lia.
    + assert (i = 0) as -> by lia. done.
Qed.

Lemma nztail_lu_cons r d : is_digit r ->
  DecimalFacts.nztail d = d -> (d = Nil -> r <> 0) ->
  DecimalFacts.nztail (lu_cons r d) = lu_cons r d /\ lu_cons r d <> Nil.
Proof.
  intros Hr Hd Hnz.
  destruct (is_digit_cases r Hr) as [->|[->|[->|[->|[->|[->|[->|[->|[->| ->]]]]]]]]];
    cbn [lu_cons DecimalFacts.nztail]; rewrite ?Hd; try done.
  destruct d; try done. by specialize (Hnz eq_refl).
Qed.

Lemma lu_cons_nonnil r d : lu_cons r d <> Nil.
Proof. unfold lu_cons. by repeat case_match. Qed.

Lemma little_digits_nil fuel i :
  0 <= i < 10 ^ Z.of_nat fuel -> little_digits fuel i = [] -> i = 0.
Proof.
  destruct fuel as [|fuel]; intros Hi.
  - simpl in Hi. lia.
  - cbn [little_digits]. destruct (Z.ltb_spec 0 i); [done|lia].
Qed.

Lemma quot_in_range fuel i :
  0 < i < 10 ^ Z.of_nat (S fuel) -> 0 <= i / 10 < 10 ^ Z.of_nat fuel.
Proof.
  intros Hi. rewrite Nat2Z.inj_succ, Z.pow_succ_r in Hi by lia.
  split; [apply Z.div_pos; lia|]. apply Z.div_lt_upper_bound; lia.
Qed.

Lemma nztail_little_digits fuel i :
  0 <= i < 10 ^ Z.of_nat fuel ->
  DecimalFacts.nztail (lu_of_digits (little_digits fuel i)) = lu_of_digits (little_digits fuel i).
Proof.
  revert i. induction fuel as [|fuel IH]; intros i Hi; [done|].
  cbn [little_digits]. destruct (Z.ltb_spec 0 i) as [Hpos|Hle]; [|done].
  cbn [lu_of_digits foldr]. fold (lu_of_digits (little_digits fuel (i ÷ 10))).
  rewrite Z.rem_mod_nonneg, Z.quot_div_nonneg by lia.
  pose proof (quot_in_range fuel i ltac:(lia)) as Hq.
  apply nztail_lu_cons.
  - unfold is_digit. pose proof (Z.mod_pos_bound i 10). lia.
  - by apply IH.
  - intros Hnil.
    assert (Hd : little_digits fuel (i / 10) = []).
    { destruct (little_digits fuel (i / 10)) as [|r ds]; [done|].
      cbn in Hnil. by apply lu_cons_nonnil in Hnil. }
    apply little_digits_nil in Hd; [|done].
    pose proof (Z.div_mod i 10). lia.
Qed.

(** The Standard Library's little-endian digits are those of the division
    loop. *)
Lemma to_little_uint_digits fuel (p : positive) :
  Z.pos p < 10 ^ Z.of_nat fuel ->
  Pos.to_little_uint p = lu_of_digits (little_digits fuel (Z.pos p)).
Proof.
  intros Hp.
  change (Pos.to_little_uint p) with (DecimalPos.Unsigned.to_lu (N.pos p)).
  change (N.pos p) with (Z.to_N (Z.pos p)).
  rewrite <- (of_lu_little_digits fuel) by lia.
  rewrite DecimalPos.Unsigned.to_of_lu. unfold DecimalFacts.lnorm.
  rewrite nztail_little_digits by lia.
  destruct fuel as [|fuel]; [simpl in Hp; lia|].
  cbn [little_digits]. change (0 <? Z.pos p) with true.
  cbn [lu_of_digits foldr]. unfold lu_cons. by repeat case_match.
Qed.

Lemma digits_text_app ds ds' : digits_text (ds ++ ds') = digits_text ds +:+ digits_text ds'.
Proof.
  unfold digits_text. rewrite fmap_app.
  induction (digit_char <$> ds) as [|c l IH]; [done|].
  cbn [app string_of_list_ascii]. by rewrite IH.
Qed.

Lemma string_of_lu_cons r d :
  is_digit r ->
  NilEmpty.string_of_uint (lu_cons r d) = String (digit_char r) (NilEmpty.string_of_uint d).
Proof.
  intros Hr. destruct (is_digit_cases r Hr) as [->|[->|[->|[->|[->|[->|[->|[->|[->| ->]]]]]]]]];
    reflexivity.
Qed.

Lemma revapp_lu_cons r d d' : revapp (lu_cons r d) d' = revapp d (lu_cons r d').
Proof. unfold lu_cons. by repeat case_match. Qed.

Lemma string_of_revapp (ds : list Z) :
  Forall is_digit ds ->
  forall d,
    NilEmpty.string_of_uint (revapp (lu_of_digits ds) d) =
    digits_text (reverse ds) +:+ NilEmpty.string_of_uint d.
Proof.
  induction 1 as [|r ds Hr _ IH]; intros d; [done|].
  cbn [lu_of_digits foldr]. fold (lu_of_digits ds).
  rewrite revapp_lu_cons, IH, string_of_lu_cons by done.
  rewrite reverse_cons, digits_text_app, sapp_assoc. done.
Qed.

(** The decimal text of a positive integer is the text of the digits of
    the division loop, most significant first. *)
Lemma Itoa_pos fuel i :
  0 < i < 10 ^ Z.of_nat fuel ->
  Itoa i = digits_text (reverse (little_digits fuel i)).
Proof.
  intros Hi. destruct i as [|p|p]; try lia.
  unfold Itoa. cbn [Z.to_int]. unfold Pos.to_uint, NilZero.string_of_int, Decimal.rev.
  rewrite (to_little_uint_digits fuel) by lia.
  unfold NilZero.string_of_uint.
  destruct (revapp _ Nil) eqn:Hrev.
  { apply DecimalFacts.revapp_nil_inv in Hrev as [Hnil _].
    destruct fuel as [|fuel]; [simpl in Hi; lia|].
    cbn [little_digits] in Hnil. change (0 <? Z.pos p) with true in Hnil.
    cbn in Hnil. by apply lu_cons_nonnil in Hnil. }
  all: rewrite <- Hrev, string_of_revapp by apply little_digits_are_digits.
  all: apply sapp_nil_r.
Qed.

Lemma Itoa_neg fuel i :
  0 < i < 10 ^ Z.of_nat fuel ->
  Itoa (- i) = String "-" (digits_text (reverse (little_digits fuel i))).
Proof.
  intros Hi. rewrite <- (Itoa_pos fuel i Hi).
  destruct i as [|p|p]; try lia. 
  unfold Itoa. cbn [Z.opp Z.to_int]. reflexivity.
Qed.

(** ** The loops of intToString *)

Lemma little_digits_length fuel i k :
  0 <= i < 10 ^ Z.of_nat k -> (length (little_digits fuel i) <= k)%nat.
Proof.
  revert i k. induction fuel as [|fuel IH]; intros i k Hi; cbn [little_digits]; [simpl; lia|].
  destruct (Z.ltb_spec 0 i) as [Hpos|Hle]; [|simpl; lia].
  destruct k as [|k]; [simpl in Hi; lia|].
  cbn [length]. apply le_n_S, IH.
  rewrite Z.quot_div_nonneg by lia. apply quot_in_range. lia.
Qed.

Lemma intToString_digits_spec fuel i n buf :
  0 <= i < 10 ^ Z.of_nat fuel ->
  (n + length (little_digits fuel i) <= length buf)%nat ->
  TroLogger.intToString_digits fuel i n buf =
  Ok ((n + length (little_digits fuel i))%nat,
      take n buf ++ (digit_char <$> little_digits fuel i)
        ++ drop (n + length (little_digits fuel i)) buf).
Proof.
  revert i n buf. induction fuel as [|fuel IH]; intros i n buf Hi Hlen.
  - simpl in Hi. assert (i = 0) as -> by lia. cbn.
    by rewrite Nat.add_0_r, take_drop.
  - cbn [TroLogger.intToString_digits little_digits] in *.
    destruct (Z.ltb_spec 0 i) as [Hpos|Hle].
    + cbn [length] in Hlen. unfold TroLogger.array_store.
      destruct (Nat.ltb_spec n (length buf)) as [Hn|Hn]; [|lia].
      cbn [mbind outcome_bind]. rewrite IH.
      * destruct (lookup_lt_is_Some_2 (<[n:=byte_of_Z (48 + Z.rem i 10)]> buf) n)
          as [c Hc]; [by rewrite length_insert|].
        rewrite (take_S_r _ _ _ Hc), take_insert_ge, drop_insert_lt by lia.
        rewrite list_lookup_insert_eq in Hc by done. injection Hc as <-.
        cbn [length fmap list_fmap]. rewrite <- (assoc_L (++)). cbn [app].
        replace (S n + length (little_digits fuel (i `quot` 10)))%nat
          with (n + S (length (little_digits fuel (i `quot` 10))))%nat by lia.
        reflexivity.
      * rewrite Z.quot_div_nonneg by lia. apply quot_in_range. lia.
      * rewrite length_insert. lia.
    + cbn. by rewrite Nat.add_0_r, take_drop.
Qed.

Lemma array_load_middle (l1 l2 : list ascii) (x : ascii) :
  TroLogger.array_load (l1 ++ x :: l2) (length l1) = Ok x.
Proof. unfold TroLogger.array_load. by rewrite list_lookup_middle. Qed.

Lemma array_store_middle (l1 l2 : list ascii) (x c : ascii) :
  TroLogger.array_store (l1 ++ x :: l2) (length l1) c = Ok (l1 ++ c :: l2).
Proof.
  unfold TroLogger.array_store.
  destruct (Nat.ltb_spec (length l1) (length (l1 ++ x :: l2))) as [_|Hbad].
  - rewrite <- (Nat.add_0_r (length l1)) at 1. by rewrite insert_app_r.
  - rewrite length_app in Hbad. simpl in Hbad. lia.
Qed.

Lemma intToString_reverse_spec (count : nat) :
  forall pre mid post rest : list ascii,
    length pre = length post ->
    (length mid / 2)%nat = count ->
    TroLogger.intToString_reverse count (length pre)
      (length pre + length mid + length post) (pre ++ mid ++ post ++ rest) =
    Ok (pre ++ reverse mid ++ post ++ rest).
Proof.
  induction count as [|count IH]; intros pre mid post rest Hpp Hcount.
  - cbn. destruct mid as [|x [|y mid]]; [done|done|].
    cbn [length] in Hcount.
    change (S (S (length mid))) with (1 * 2 + length mid)%nat in Hcount.
    rewrite Nat.div_add_l in Hcount by lia. lia.
  - destruct mid as [|x mid]; [done|].
    induction mid as [|y mid' _] using rev_ind; [done|].
    cbn [TroLogger.intToString_reverse].
    assert (Hmid : length (x :: mid' ++ [y]) = S (S (length mid'))).
    { cbn [length]. rewrite length_app. simpl. lia. }
    assert (Hcount' : (length mid' / 2)%nat = count).
    { rewrite Hmid in Hcount.
      change (S (S (length mid'))) with (1 * 2 + length mid')%nat in Hcount.
      rewrite Nat.div_add_l in Hcount by lia. lia. }
    set (n := (length pre + length (x :: mid' ++ [y]) + length post)%nat).
    assert (Hidx : (n - length pre - 1)%nat = length (pre ++ x :: mid')).
    { unfold n. rewrite Hmid, length_app. cbn [length]. lia. }
    rewrite Hidx.
    replace (pre ++ (x :: mid' ++ [y]) ++ post ++ rest)
      with ((pre ++ x :: mid') ++ y :: post ++ rest)
      by (rewrite <- !(assoc_L (++)); cbn [app]; by rewrite <- !(assoc_L (++))).
    rewrite (array_load_middle (pre ++ x :: mid') (post ++ rest) y).
    cbn [mbind outcome_bind].
    replace ((pre ++ x :: mid') ++ y :: post ++ rest)
      with (pre ++ x :: (mid' ++ y :: post ++ rest))
      by (by rewrite <- !(assoc_L (++))).
    rewrite array_load_middle. cbn [mbind outcome_bind].
    rewrite array_store_middle. cbn [mbind outcome_bind].
    replace (length (pre ++ x :: mid')) with (length (pre ++ y :: mid'))
      by (by rewrite !length_app).
    replace (pre ++ y :: mid' ++ y :: post ++ rest)
      with ((pre ++ y :: mid') ++ y :: post ++ rest)
      by (by rewrite <- !(assoc_L (++))).
    rewrite array_store_middle. cbn [mbind outcome_bind].
    specialize (IH (pre ++ [y]) mid' (x :: post) rest).
    rewrite !length_app in IH. cbn [length] in IH.
    replace (S (length pre)) with (length pre + 1)%nat by lia.
    replace n with (length pre + 1 + length mid' + S (length post))%nat
      by (unfold n; rewrite Hmid; lia).
    replace ((pre ++ y :: mid') ++ x :: post ++ rest)
      with ((pre ++ [y]) ++ mid' ++ (x :: post) ++ rest)
      by (rewrite <- !(assoc_L (++)); done).
    rewrite IH by (done || lia).
    f_equal. rewrite reverse_cons, reverse_app. cbn.
    rewrite <- !(assoc_L (++)). done.
Qed.

Lemma digits_text_reverse (ds : list Z) :
  string_of_list_ascii (reverse (digit_char <$> ds)) = digits_text (reverse ds).
Proof. unfold digits_text. by rewrite fmap_reverse. Qed.

Lemma intToString_nonneg (i : Z) :
  0 <= i < 10 ^ 10 -> TroLogger.intToString i = Ok (Itoa i).
Proof.
  intros Hi. unfold TroLogger.intToString.
  destruct (Z.eqb_spec i 0) as [->|Hne]; [done|].
  destruct (Z.ltb_spec i 0) as [?|_]; [lia|].
  pose proof (little_digits_length 64 i 10 ltac:(lia)) as Hlen.
  rewrite (intToString_digits_spec 64 i 0 (replicate 10 "000"%char));
    [|change (Z.of_nat 64) with 64; lia|rewrite length_replicate; lia].
  rewrite take_0. cbn [mbind outcome_bind app Nat.add].
  set (chars := digit_char <$> little_digits 64 i).
  set (rest := drop _ _).
  pose proof (intToString_reverse_spec (length chars / 2) [] chars [] rest eq_refl eq_refl)
    as Hrev.
  cbn [length app Nat.add] in Hrev. rewrite Nat.add_0_r in Hrev.
  replace (length (little_digits 64 i)) with (length chars)
    by (unfold chars; by rewrite length_fmap).
  rewrite Hrev. cbn [mbind outcome_bind].
  rewrite <- (length_reverse chars), take_app_length.
  unfold chars. rewrite digits_text_reverse.
  f_equal. symmetry. apply Itoa_pos. change (Z.of_nat 64) with 64. lia.
Qed.

Lemma intToString_negative (i : Z) :
  - 10 ^ 9 < i < 0 -> TroLogger.intToString i = Ok (Itoa i).
Proof.
  intros Hi. unfold TroLogger.intToString.
  destruct (Z.eqb_spec i 0) as [->|Hne]; [lia|].
  destruct (Z.ltb_spec i 0) as [_|?]; [|lia].
  assert (Hwrap : wrap64 (- i) = - i).
  { unfold wrap64. rewrite Z.mod_small by lia. lia. }
  rewrite Hwrap.
  pose proof (little_digits_length 64 (- i) 9 ltac:(lia)) as Hlen.
  rewrite (intToString_digits_spec 64 (- i) 0 (replicate 10 "000"%char));
    [|change (Z.of_nat 64) with 64; lia|rewrite length_replicate; lia].
  rewrite take_0. cbn [mbind outcome_bind app Nat.add].
  set (chars := digit_char <$> little_digits 64 (- i)).
  assert (Hchars : length (little_digits 64 (- i)) = length chars)
    by (unfold chars; by rewrite length_fmap).
  rewrite Hchars in *.
  rewrite drop_replicate.
  destruct (10 - length chars)%nat as [|room] eqn:Hroom; [lia|].
  cbn [replicate]. rewrite array_store_middle. cbn [mbind outcome_bind].
  pose proof (intToString_reverse_spec (length (chars ++ ["-"%char]) / 2) []
                (chars ++ ["-"%char]) [] (replicate room "000"%char) eq_refl eq_refl)
    as Hrev.
  cbn [length app Nat.add] in Hrev. rewrite Nat.add_0_r, length_app in Hrev.
  cbn [length] in Hrev. rewrite Nat.add_1_r in Hrev.
  replace (chars ++ "-"%char :: replicate room "000"%char)
    with ((chars ++ ["-"%char]) ++ replicate room "000"%char)
    by (by rewrite <- (assoc_L (++))).
  rewrite Hrev. cbn [mbind outcome_bind].
  replace (S (length chars)) with (length (reverse (chars ++ ["-"%char])))
    by (rewrite length_reverse, length_app; simpl; lia).
  rewrite take_app_length, reverse_app.
  change (string_of_list_ascii (reverse ["-"%char] ++ reverse chars))
    with (String "-" (string_of_list_ascii (reverse chars))).
  unfold chars. rewrite digits_text_reverse.
  f_equal. symmetry.
  rewrite <- (Z.opp_involutive i) at 1.
  apply Itoa_neg. change (Z.of_nat 64) with 64. lia.
Qed.

(** Within ten characters [intToString] is the decimal text. *)
Lemma intToString_decimal (i : Z) :
  - 10 ^ 9 < i < 10 ^ 10 -> TroLogger.intToString i = Ok (Itoa i).
Proof.
  intros Hi. destruct (Z.lt_ge_cases i 0).
  - apply intToString_negative. lia.
  - apply intToString_nonneg. lia.
Qed.

(** C8.  intToString of logger.go returns the decimal text of zero and of
    integers of few digits, negative ones included, but not of every machine
    integer: its buffer holds ten bytes, so an integer of eleven digits, or
    a negative one of ten digits, panics with an index out of range, and the
    smallest integer, whose negation is itself, comes out as "-". *)
Theorem intToString_small_buffer :
  TroLogger.intToString 0 = Ok "0" /\
  TroLogger.intToString 42 = Ok "42" /\
  TroLogger.intToString (-3) = Ok "-3" /\
  TroLogger.intToString 9999999999 = Ok "9999999999" /\
  TroLogger.intToString (-999999999) = Ok "-999999999" /\
  TroLogger.intToString 12345678901 = Panic IndexOutOfRange /\
  Itoa 12345678901 = "12345678901" /\
  TroLogger.intToString (-1234567890) = Panic IndexOutOfRange /\
  Itoa (-1234567890) = "-1234567890" /\
  TroLogger.intToString MaxInt64 = Panic IndexOutOfRange /\
  TroLogger.intToString MinInt64 = Ok "-" /\
  TroLogger.valueToString (VInt 12345678901) = Panic IndexOutOfRange.
Proof. repeat split; vm_compute; reflexivity. Qed.

(** ** Formatting *)

Lemma index_arg_drop (args rest : list Value) (k : nat) (v : Value) :
  drop k args = v :: rest -> index_arg args k = Ok v /\ drop (S k) args = rest.
Proof.
  intros Hd. unfold index_arg.
  assert (Hk : args !! k = Some v).
  { rewrite <- (Nat.add_0_r k), <- lookup_drop, Hd. done. }
  rewrite Hk. split; [done|].
  by rewrite <- (Nat.add_1_l k), Nat.add_comm, <- drop_drop, Hd.
Qed.

Lemma trolog_formatMessage_loop_formats format args out :
  formats trolog_verb is_ascii format args out ->
  forall all k result,
    drop k all = args ->
    Trolog.formatMessage_loop format all k result = Ok (result +:+ out).
Proof.
  induction 1 as [args|args|c format args out Hc Hp _ IH|c v s format args out Hv _ IH];
    intros all k result Hd.
  - by rewrite sapp_nil_r.
  - done.
  - cbn [Trolog.formatMessage_loop].
    apply Ascii.eqb_neq in Hc. rewrite Hc.
    unfold string_of_byte. unfold is_ascii in Hp. rewrite Hp.
    rewrite (IH all k) by done. by rewrite sapp_assoc.
  - apply index_arg_drop in Hd as [Hidx Hd].
    cbn [Trolog.formatMessage_loop]. rewrite Ascii.eqb_refl.
    unfold trolog_verb in Hv.
    destruct (Ascii.eqb c "s").
    { injection Hv as <-. rewrite Hidx. cbn [mbind outcome_bind].
      rewrite (IH all (S k)) by done. by rewrite sapp_assoc. }
    destruct (Ascii.eqb c "d").
    { destruct v; try done. injection Hv as <-. rewrite Hidx.
      cbn [mbind outcome_bind assert_int].
      rewrite (IH all (S k)) by done. by rewrite sapp_assoc. }
    destruct (Ascii.eqb c "f"); [|done].
    destruct v; try done. injection Hv as <-. rewrite Hidx.
    cbn [mbind outcome_bind assert_float64].
    rewrite (IH all (S k)) by done. by rewrite sapp_assoc.
Qed.

Lemma trologger_formatMessage_loop_formats format args out :
  formats trologger_verb any_byte format args out ->
  forall all k result,
    drop k all = args ->
    TroLogger.formatMessage_loop format all k result = Ok (result +:+ out).
Proof.
  induction 1 as [args|args|c format args out Hc _ _ IH|c v s format args out Hv _ IH];
    intros all k result Hd.
  - by rewrite sapp_nil_r.
  - done.
  - cbn [TroLogger.formatMessage_loop].
    apply Ascii.eqb_neq in Hc. rewrite Hc.
    rewrite (IH all k) by done. by rewrite sapp_assoc.
  - apply index_arg_drop in Hd as [Hidx Hd].
    cbn [TroLogger.formatMessage_loop]. rewrite Ascii.eqb_refl.
    unfold trologger_verb in Hv.
    destruct (Ascii.eqb c "s").
    { destruct v; try done. injection Hv as <-. rewrite Hidx.
      cbn [mbind outcome_bind assert_string].
      rewrite (IH all (S k)) by done. by rewrite sapp_assoc. }
    destruct (Ascii.eqb c "d"); [|done].
    destruct v as [|i| | |]; try done.
    destruct (TroLogger.intToString i) as [s'|] eqn:Hs; [|done].
    injection Hv as <-. rewrite Hidx.
    cbn [mbind outcome_bind assert_int]. rewrite Hs. cbn [mbind outcome_bind].
    rewrite (IH all (S k)) by done. by rewrite sapp_assoc.
Qed.

(** C9, counterexample.  logger.go knows no %f: the placeholder is dropped
    and its argument is not rendered, where part_001 renders it.  A '%' in
    front of any other character is not copied: part_001 drops the '%',
    logger.go drops the character after it as well.  And part_001 copies a
    byte from 0x80 on as the two bytes of its code point, so that the two
    bytes C3 A9 of a UTF-8 letter come out as the four bytes C3 83 C2 A9. *)
Lemma formatMessage_counterexample :
  TroLogger.formatMessage "rate %f" [VFloat (f64_lit 15 1)] = Ok "rate " /\
  Trolog.formatMessage "rate %f" [VFloat (f64_lit 15 1)] = Ok "rate 1.50" /\
  Trolog.formatMessage "50%!" [] = Ok "50!" /\
  TroLogger.formatMessage "50%!" [] = Ok "50" /\
  Trolog.formatMessage (String "195" (String "169" "")) [] =
    Ok (String "195" (String "131" (String "194" (String "169" "")))) /\
  TroLogger.formatMessage (String "195" (String "169" "")) [] =
    Ok (String "195" (String "169" "")).
Proof. repeat split; vm_compute; reflexivity. Qed.

(** C9, amended.  For every format string in which each '%' either starts
    a placeholder or is the last character, and every argument list that
    matches the placeholders in order, formatMessage (and so Infof, Debugf,
    etc.) returns the format string with each placeholder replaced by the
    rendering of its argument and every other character copied through.  The
    placeholders of part_001 are %s (any value, by valueToString), %d (an
    int) and %f (a float64, by floatToString), and its format strings are
    taken to be ASCII; those of logger.go are %s (a string) and %d (an int
    that intToString renders), in format strings of any bytes. *)
Theorem formatMessage_substitutes (format : string) (args : list Value) (out : string) :
  (formats trolog_verb is_ascii format args out ->
   Trolog.formatMessage format args = Ok out /\
   forall level l env st,
     Trolog.logf level l format args env st = Trolog.log l level out ∅ env st) /\
  (formats trologger_verb any_byte format args out ->
   TroLogger.formatMessage format args = Ok out /\
   forall level l env st,
     TroLogger.logf level l format args env st = TroLogger.log l level out ∅ env st).
Proof.
  split; intros Hf.
  - assert (Hm : Trolog.formatMessage format args = Ok out)
      by (by apply (trolog_formatMessage_loop_formats _ _ _ Hf args 0%nat "")).
    split; [done|]. intros. unfold Trolog.logf. by rewrite Hm.
  - assert (Hm : TroLogger.formatMessage format args = Ok out)
      by (by apply (trologger_formatMessage_loop_formats _ _ _ Hf args 0%nat "")).
    split; [done|]. intros. unfold TroLogger.logf. by rewrite Hm.
Qed.

Lemma formatMessage_substitutes_witness :
  Trolog.formatMessage "%s has %d items at %f%" [VString "cart"; VInt 3; VFloat (f64_lit 25 1)]
    = Ok "cart has 3 items at 2.50%" /\
  TroLogger.formatMessage "%s has %d items" [VString "cart"; VInt 3]
    = Ok "cart has 3 items".
Proof.
  split.
  - apply (formatMessage_substitutes "%s has %d items at %f%"
             [VString "cart"; VInt 3; VFloat (f64_lit 25 1)] "cart has 3 items at 2.50%").
    apply (formats_verb _ _ "s" (VString "cart") "cart"); [reflexivity|].
    do 5 (apply formats_char; [discriminate|reflexivity|]).
    apply (formats_verb _ _ "d" (VInt 3) "3"); [reflexivity|].
    do 10 (apply formats_char; [discriminate|reflexivity|]).
    apply (formats_verb _ _ "f" (VFloat (f64_lit 25 1)) "2.50"); [reflexivity|].
    apply formats_last_percent.
  - apply (formatMessage_substitutes "%s has %d items"
             [VString "cart"; VInt 3] "cart has 3 items").
    apply (formats_verb _ _ "s" (VString "cart") "cart"); [reflexivity|].
    do 5 (apply formats_char; [discriminate|reflexivity|]).
    apply (formats_verb _ _ "d" (VInt 3) "3"); [reflexivity|].
    do 6 (apply formats_char; [discriminate|reflexivity|]).
    apply formats_end.
Defined.

(** * The claims on concrete loggers *)

(** C1 on the logger that [NewLogger("info", 1, false, "")] makes in the
    empty state. *)
Lemma first_info_line_layout_witness :
  logIDCounter empty_state = 0 /\
  has_esc (time_Now example_env) = false /\
  exists st' line,
    Trolog.Info 1%positive "hello world!" example_env plain_logger_state = Ok st' /\
    emitted plain_logger_state st' = [ToOutput 1%nat line] /\
    strip_ansi line = "ID:1 INFO 2024-10-10T10:24:44+06:00 hello world!" +:+ newline.
Proof.
  split; [reflexivity|]. split; [reflexivity|].
  pose proof (first_info_line_layout 1%nat (fun _ => None) example_env empty_state
                eq_refl eq_refl) as [H _].
  exact H.
Defined.

(** C2 on Debug("x") from a logger with minimum level Info and a file: the
    console receives nothing, the file one plain line. *)
Lemma console_is_filtered_file_is_not_witness :
  loggers example_state !! 1%positive = Some example_logger /\
  (exists st',
     Trolog.log 1%positive DebugLevel "x" ∅ example_env example_state = Ok st' /\
     to_output 1%nat (emitted example_state st') = [] /\
     to_file 7%nat (emitted example_state st') =
       ["ID:1 DEBU 2024-10-10T10:24:44+06:00 x" +:+ newline]) /\
  (exists st',
     TroLogger.log 1%positive DebugLevel "x" ∅ example_env example_state = Ok st' /\
     to_output 1%nat (emitted example_state st') = [] /\
     to_file 7%nat (emitted example_state st') =
       ["DEBU 2024-10-10T10:24:44+06:00 ID:1 x" +:+ newline]).
Proof.
  split; [reflexivity|].
  destruct (console_is_filtered_file_is_not 1%positive example_logger DebugLevel "x" ∅
              example_env example_state eq_refl)
    as [(st' & Hrun & _ & Hnone & Hfile) (st'' & Hrun' & _ & Hnone' & Hfile')].
  split.
  - exists st'. split; [exact Hrun|]. split.
    + apply Hnone. vm_compute. reflexivity.
    + rewrite (Hfile 7%nat eq_refl). vm_compute. reflexivity.
  - exists st''. split; [exact Hrun'|]. split.
    + apply Hnone'. vm_compute. reflexivity.
    + rewrite (Hfile' 7%nat eq_refl). vm_compute. reflexivity.
Defined.

(** C3 on three calls from the counter value 0: the IDs are 1, 2, 3. *)
Lemma sequence_ids_consecutive_witness :
  let calls :=
    [ mkCall 1%positive InfoLevel "a" ∅ example_env;
      mkCall 1%positive DebugLevel "b" ∅ example_env;
      mkCall 1%positive ErrorLevel "c" ∅ example_env ] in
  Forall (fun c => is_Some (loggers example_state !! call_logger c)) calls /\
  (exists sts, run_calls Trolog.log calls example_state = Ok sts /\
               logIDCounter <$> sts = [1; 2; 3]) /\
  (exists sts, run_calls TroLogger.log calls example_state = Ok sts /\
               logIDCounter <$> sts = [1; 2; 3]).
Proof.
  intros calls.
  assert (Hall : Forall (fun c => is_Some (loggers example_state !! call_logger c)) calls).
  { repeat constructor; by exists example_logger. }
  split; [exact Hall|].
  destruct (sequence_ids_consecutive calls example_state Hall)
    as (_ & (sts & Hrun & _ & _ & _ & Hids) & (sts' & Hrun' & _ & _ & _ & Hids')).
  split.
  - exists sts. split; [exact Hrun|].
    apply Hids; [vm_compute; split; discriminate | vm_compute; discriminate].
  - exists sts'. split; [exact Hrun'|].
    apply Hids'; [vm_compute; split; discriminate | vm_compute; discriminate].
Defined.

(** C4 on a logger with the fields a and b: AddField("user", "alice") in
    part_001, AddField("n", 42) and AddField("n", 12345678901) in
    logger.go. *)
Lemma AddField_copies_and_leaves_base_witness :
  loggers two_field_state !! 1%positive = Some example_logger /\
  is_Some (maps two_field_state !! Logger.fields example_logger) /\
  (exists new st' L',
     Trolog.AddField 1%positive "user" (VString "alice") [] two_field_state = Ok (new, st') /\
     loggers st' !! 1%positive = Some example_logger /\
     read_map (Logger.fields example_logger) st' = two_fields /\
     loggers st' !! new = Some L' /\
     Logger.file L' = Some 7%nat /\
     read_map (Logger.fields L') st' = <["user" := "alice"]> two_fields) /\
  (exists new st' L',
     TroLogger.AddField 1%positive "n" (VInt 42) [] two_field_state = Ok (new, st') /\
     loggers st' !! 1%positive = Some example_logger /\
     read_map (Logger.fields example_logger) st' = two_fields /\
     loggers st' !! new = Some L' /\
     Logger.file L' = Some 7%nat /\
     read_map (Logger.fields L') st' = <["n" := "42"]> two_fields) /\
  TroLogger.AddField 1%positive "n" (VInt 12345678901) [] two_field_state
    = Panic IndexOutOfRange.
Proof.
  assert (Hm : is_Some (maps two_field_state !! Logger.fields example_logger))
    by (by exists two_fields).
  split; [reflexivity|]. split; [exact Hm|].
  split; [|split].
  - destruct (AddField_copies_and_leaves_base 1%positive example_logger "user"
                (VString "alice") [] two_field_state eq_refl Hm)
      as [(new & st' & Hrun & (Hbase & Hread & _) &
           (_ & L' & HL' & _ & _ & Hfile & _ & _ & Hnew) & _) _].
    exists new, st', L'. split; [exact Hrun|]. split; [exact Hbase|].
    split; [exact Hread|]. split; [exact HL'|]. split; [exact Hfile|]. exact Hnew.
  - destruct (AddField_copies_and_leaves_base 1%positive example_logger "n"
                (VInt 42) [] two_field_state eq_refl Hm)
      as [_ [(new & st' & Hrun & (Hbase & Hread & _) &
              (_ & L' & HL' & _ & _ & Hfile & _ & _ & Hnew) & _) _]].
    exists new, st', L'. split; [exact Hrun|]. split; [exact Hbase|].
    split; [exact Hread|]. split; [exact HL'|]. split; [exact Hfile|]. exact Hnew.
  - exact (proj1 (proj2 (proj2 (AddField_copies_and_leaves_base 1%positive example_logger
                                  "n" (VInt 0) [] two_field_state eq_refl Hm)))).
Defined.

(** C6 on Warn("oops") from a logger without fields. *)
Lemma console_line_is_file_line_up_to_escapes_witness :
  loggers example_state !! 1%positive = Some example_logger /\
  Logger.file example_logger = Some 7%nat /\
  rank (Logger.level example_logger) <= rank WarnLevel /\
  exists st' line rest,
    Trolog.log 1%positive WarnLevel "oops" ∅ example_env example_state = Ok st' /\
    to_output 1%nat (emitted example_state st') = line :: rest /\
    to_file 7%nat (emitted example_state st') = [strip_ansi line].
Proof.
  split; [reflexivity|]. split; [reflexivity|]. split; [vm_compute; discriminate|].
  destruct (console_line_is_file_line_up_to_escapes 1%positive example_logger 7%nat
              WarnLevel "oops" ∅ example_env example_state)
    as [(st' & line & rest & plain & Hrun & Hout & Hfile & Hstrip & _) _].
  - reflexivity.
  - reflexivity.
  - vm_compute. discriminate.
  - split; [reflexivity|]. split; [reflexivity|].
    change (read_map (Logger.fields example_logger) example_state)
      with (∅ : gmap string string).
    split; apply map_Forall_empty.
  - right. split; vm_compute; lia.
  - exists st', line, rest. split; [exact Hrun|]. split; [exact Hout|].
    by rewrite Hstrip.
Defined.

(** C10 on Info("x") and Infof("%d items", 3). *)
Lemma emission_leaves_logger_unchanged_witness :
  loggers example_state !! 1%positive = Some example_logger /\
  (exists st', Trolog.Info 1%positive "x" example_env example_state = Ok st' /\
               loggers st' = loggers example_state /\
               maps st' = maps example_state) /\
  (forall st', Trolog.Infof 1%positive "%d items" [VInt 3] example_env example_state = Ok st' ->
               loggers st' = loggers example_state /\
               maps st' = maps example_state).
Proof.
  split; [reflexivity|].
  destruct (emission_leaves_logger_unchanged 1%positive example_logger example_state
              example_env InfoLevel "x" "%d items" [VInt 3] ∅ eq_refl) as [Hplain Hf].
  split.
  - pose proof (Forall_lookup_1 _ _ 2%nat _ Hplain eq_refl) as (st' & Hrun & Hl & Hm & _).
    exists st'. split; [exact Hrun|]. split; [exact Hl|exact Hm].
  - intros st' Hrun.
    pose proof (Forall_lookup_1 _ _ 1%nat _ Hf eq_refl st' Hrun) as (Hl & Hm & _).
    split; [exact Hl|exact Hm].
Defined.

(** * Further properties of the code *)

(** ** intToString (logger.go) *)

Lemma little_digits_long (k : nat) :
  forall fuel i,
    10 ^ Z.of_nat k <= i < 10 ^ Z.of_nat fuel ->
    (k < length (little_digits fuel i))%nat.
Proof.
  induction k as [|k IH]; intros fuel i Hi.
  - destruct fuel as [|fuel]; [simpl in Hi; lia|].
    cbn [little_digits]. destruct (Z.ltb_spec 0 i); [simpl; lia|simpl in Hi; lia].
  - destruct fuel as [|fuel].
    { assert (0 < 10 ^ Z.of_nat (S k)) by (apply Z.pow_pos_nonneg; lia).
      simpl in Hi. lia. }
    assert (Hpos : 0 < i).
    { assert (0 < 10 ^ Z.of_nat (S k)) by (apply Z.pow_pos_nonneg; lia). lia. }
    cbn [little_digits]. destruct (Z.ltb_spec 0 i); [|lia].
    cbn [length]. apply ->Nat.succ_lt_mono. apply IH.
    rewrite Z.quot_div_nonneg by lia.
    split; [|apply quot_in_range; lia].
    rewrite Nat2Z.inj_succ, Z.pow_succ_r in Hi by lia.
    apply Z.div_le_lower_bound; lia.
Qed.

Lemma intToString_digits_overflow fuel :
  forall i n buf,
    0 <= i < 10 ^ Z.of_nat fuel ->
    (n <= length buf)%nat ->
    (length buf < n + length (little_digits fuel i))%nat ->
    TroLogger.intToString_digits fuel i n buf = Panic IndexOutOfRange.
Proof.
  induction fuel as [|fuel IH]; intros i n buf Hi Hn Hlen.
  - simpl in Hlen. lia.
  - cbn [TroLogger.intToString_digits little_digits] in *.
    destruct (Z.ltb_spec 0 i) as [Hpos|Hle]; [|simpl in Hlen; lia].
    cbn [length] in Hlen. unfold TroLogger.array_store.
    destruct (Nat.ltb_spec n (length buf)) as [Hlt|Hge]; [|done].
    cbn [mbind outcome_bind]. apply IH.
    + rewrite Z.quot_div_nonneg by lia. apply quot_in_range. lia.
    + rewrite length_insert. lia.
    + rewrite length_insert. lia.
Qed.

Lemma intToString_too_long (i : Z) :
  10 ^ 10 <= i <= MaxInt64 -> TroLogger.intToString i = Panic IndexOutOfRange.
Proof.
  unfold MaxInt64. intros Hi. unfold TroLogger.intToString.
  destruct (Z.eqb_spec i 0) as [->|_]; [lia|].
  destruct (Z.ltb_spec i 0) as [?|_]; [lia|].
  rewrite (intToString_digits_overflow 64 i 0 (replicate 10 "000"%char)); [done| | |].
  - change (Z.of_nat 64) with 64. lia.
  - lia.
  - rewrite length_replicate.
    pose proof (little_digits_long 10 64 i) as Hl.
    change (Z.of_nat 10) with 10 in Hl. change (Z.of_nat 64) with 64 in Hl. lia.
Qed.

Lemma intToString_too_long_negative (i : Z) :
  MinInt64 < i <= - 10 ^ 9 -> TroLogger.intToString i = Panic IndexOutOfRange.
Proof.
  unfold MinInt64. intros Hi. unfold TroLogger.intToString.
  destruct (Z.eqb_spec i 0) as [->|_]; [lia|].
  destruct (Z.ltb_spec i 0) as [_|?]; [|lia].
  assert (Hwrap : wrap64 (- i) = - i).
  { unfold wrap64. rewrite Z.mod_small by lia. lia. }
  rewrite Hwrap.
  pose proof (little_digits_long 9 64 (- i)) as Hl.
  change (Z.of_nat 9) with 9 in Hl. change (Z.of_nat 64) with 64 in Hl.
  specialize (Hl ltac:(lia)).
  destruct (decide (length (little_digits 64 (- i)) <= 10)%nat) as [Hle|Hgt].
  - rewrite (intToString_digits_spec 64 (- i) 0 (replicate 10 "000"%char));
      [|change (Z.of_nat 64) with 64; lia|rewrite length_replicate; lia].
    cbn [mbind outcome_bind]. unfold TroLogger.array_store.
    rewrite take_0, !length_app, length_fmap, length_drop, length_replicate.
    cbn [length Nat.add].
    destruct (Nat.ltb_spec (length (little_digits 64 (- i)))
                (length (little_digits 64 (- i)) +
                   (10 - length (little_digits 64 (- i))))); [lia|done].
  - rewrite (intToString_digits_overflow 64 (- i) 0 (replicate 10 "000"%char)); [done| | |].
    + change (Z.of_nat 64) with 64. lia.
    + lia.
    + rewrite length_replicate. lia.
Qed.

Lemma Atoi_Itoa (i : Z) : Atoi (Itoa i) = Some i.
Proof.
  unfold Atoi, Itoa. rewrite NilZero.isi.
  - cbn. by rewrite DecimalZ.of_to.
  - destruct i; cbn; try done. intros [= H]. by apply DecimalPos.Unsigned.to_uint_nonnil in H.
  - destruct i; cbn; try done. intros [= H]. by apply DecimalPos.Unsigned.to_uint_nonnil in H.
Qed.

(** X1.  For every integer of at most ten characters, -10^9 < i < 10^10,
    intToString returns the decimal text of i: the digits, most significant
    first and without leading zeros, behind a '-' for a negative i. *)
Theorem intToString_in_range (i : Z) :
  - 10 ^ 9 < i < 10 ^ 10 -> TroLogger.intToString i = Ok (Itoa i).
Proof. apply intToString_decimal. Qed.

Lemma intToString_in_range_witness :
  - 10 ^ 9 < -2024 < 10 ^ 10 /\ TroLogger.intToString (-2024) = Ok "-2024".
Proof. split; [lia|]. apply (intToString_in_range (-2024)). lia. Defined.

(** X2.  For every other integer but the smallest, that is from 10^10 up
    and from -10^9 down, intToString panics with an index out of range, and
    so do valueToString and AddField for such a value. *)
Theorem intToString_out_of_range (i : Z) :
  10 ^ 10 <= i <= MaxInt64 \/ MinInt64 < i <= - 10 ^ 9 ->
  TroLogger.intToString i = Panic IndexOutOfRange /\
  TroLogger.valueToString (VInt i) = Panic IndexOutOfRange /\
  forall l L key order st,
    loggers st !! l = Some L ->
    TroLogger.AddField l key (VInt i) order st = Panic IndexOutOfRange.
Proof.
  intros Hi.
  assert (Hp : TroLogger.intToString i = Panic IndexOutOfRange).
  { destruct Hi; [by apply intToString_too_long|by apply intToString_too_long_negative]. }
  split; [done|]. split; [done|].
  intros l L key order st HL.
  rewrite (trologger_AddField_spec l L) by done.
  cbn [TroLogger.valueToString]. by rewrite Hp.
Qed.

Lemma intToString_out_of_range_witness :
  (10 ^ 10 <= 10000000000 <= MaxInt64 \/ MinInt64 < 10000000000 <= - 10 ^ 9) /\
  TroLogger.intToString 10000000000 = Panic IndexOutOfRange.
Proof.
  assert (H : 10 ^ 10 <= 10000000000 <= MaxInt64 \/ MinInt64 < 10000000000 <= - 10 ^ 9).
  { left. unfold MaxInt64. lia. }
  split; [exact H|]. exact (proj1 (intToString_out_of_range 10000000000 H)).
Defined.

(** X3.  Within its range intToString loses nothing: reading its text back
    as a decimal number gives the integer again, so different integers get
    different texts. *)
Theorem intToString_round_trip (i j : Z) :
  - 10 ^ 9 < i < 10 ^ 10 ->
  - 10 ^ 9 < j < 10 ^ 10 ->
  (exists s, TroLogger.intToString i = Ok s /\ Atoi s = Some i) /\
  (TroLogger.intToString i = TroLogger.intToString j -> i = j).
Proof.
  intros Hi Hj. rewrite !intToString_decimal by done. split.
  - exists (Itoa i). split; [done|apply Atoi_Itoa].
  - intros [= Heq]. apply (f_equal Atoi) in Heq.
    rewrite !Atoi_Itoa in Heq. by injection Heq.
Qed.

Lemma intToString_round_trip_witness :
  exists s, TroLogger.intToString (-17) = Ok s /\ Atoi s = Some (-17).
Proof.
  apply (intToString_round_trip (-17) 5); lia.
Defined.

(** ** formatMessage *)

Lemma index_arg_app (args more : list Value) (k : nat) (v : Value) :
  index_arg args k = Ok v -> index_arg (args ++ more) k = Ok v.
Proof.
  unfold index_arg. destruct (args !! k) as [a|] eqn:Hk; [|done].
  intros [= ->]. by rewrite (lookup_app_l_Some _ _ _ _ Hk).
Qed.

Lemma trolog_loop_surplus (n : nat) :
  forall format args more k result out,
    (String.length format <= n)%nat ->
    Trolog.formatMessage_loop format args k result = Ok out ->
    Trolog.formatMessage_loop format (args ++ more) k result = Ok out.
Proof.
  induction n as [|n IH]; intros format args more k result out Hlen.
  - destruct format; [done|simpl in Hlen; lia].
  - destruct format as [|c rest]; [done|].
    cbn [Trolog.formatMessage_loop]. cbn [String.length] in Hlen.
    destruct (Ascii.eqb c "%"), rest as [|next rest'];
      try (apply IH; cbn [String.length] in *; lia).
    cbn [String.length] in Hlen.
    repeat case_match.
    all: try (apply IH; cbn [String.length] in *; lia).
    all: destruct (index_arg args k) as [a|] eqn:Ha; [|done].
    all: rewrite (index_arg_app _ more _ _ Ha); cbn [mbind outcome_bind].
    all: try (destruct a; try done; cbn [mbind outcome_bind assert_int assert_float64]).
    all: apply IH; lia.
Qed.

Lemma trologger_loop_surplus (n : nat) :
  forall format args more k result out,
    (String.length format <= n)%nat ->
    TroLogger.formatMessage_loop format args k result = Ok out ->
    TroLogger.formatMessage_loop format (args ++ more) k result = Ok out.
Proof.
  induction n as [|n IH]; intros format args more k result out Hlen.
  - destruct format; [done|simpl in Hlen; lia].
  - destruct format as [|c rest]; [done|].
    cbn [TroLogger.formatMessage_loop]. cbn [String.length] in Hlen.
    destruct (Ascii.eqb c "%"), rest as [|next rest'];
      try (apply IH; cbn [String.length] in *; lia).
    cbn [String.length] in Hlen.
    repeat case_match.
    all: try (apply IH; cbn [String.length] in *; lia).
    all: destruct (index_arg args k) as [a|] eqn:Ha; [|done].
    all: rewrite (index_arg_app _ more _ _ Ha); cbn [mbind outcome_bind].
    all: destruct a as [s|i| | |]; try done; cbn [mbind outcome_bind assert_int assert_string].
    all: try (destruct (TroLogger.intToString i); [|done]; cbn [mbind outcome_bind]).
    all: apply IH; lia.
Qed.

(** X4.  Arguments beyond those that the placeholders use are ignored: a
    call of formatMessage that returns keeps its result when more arguments
    are appended.  Both variants. *)
Theorem formatMessage_ignores_surplus_arguments
    (format : string) (args more : list Value) (out : string) :
  (Trolog.formatMessage format args = Ok out ->
   Trolog.formatMessage format (args ++ more) = Ok out) /\
  (TroLogger.formatMessage format args = Ok out ->
   TroLogger.formatMessage format (args ++ more) = Ok out).
Proof.
  split.
  - apply (trolog_loop_surplus (String.length format)). lia.
  - apply (trologger_loop_surplus (String.length format)). lia.
Qed.

Lemma formatMessage_ignores_surplus_arguments_witness :
  Trolog.formatMessage "%s: %d" [VString "n"; VInt 7; VBool true; VOther] = Ok "n: 7".
Proof.
  apply (formatMessage_ignores_surplus_arguments "%s: %d" [VString "n"; VInt 7]
           [VBool true; VOther] "n: 7").
  vm_compute. reflexivity.
Defined.

(** A literal prefix is copied and the loop goes on behind it. *)
Lemma trolog_loop_literal (lit : string) :
  forall rest args k result,
    string_forallb not_percent lit = true ->
    Trolog.formatMessage_loop (lit +:+ rest) args k result =
    Trolog.formatMessage_loop rest args k (result +:+ recode lit).
Proof.
  induction lit as [|c lit IH]; intros rest args k result Hlit.
  - by rewrite sapp_nil_r.
  - cbn [string_forallb] in Hlit. apply andb_prop in Hlit as [Hc Hlit].
    unfold not_percent in Hc. apply negb_true_iff in Hc.
    rewrite sapp_cons. cbn [Trolog.formatMessage_loop recode]. rewrite Hc.
    rewrite IH by done. by rewrite sapp_assoc.
Qed.

Lemma trologger_loop_literal (lit : string) :
  forall rest args k result,
    string_forallb not_percent lit = true ->
    TroLogger.formatMessage_loop (lit +:+ rest) args k result =
    TroLogger.formatMessage_loop rest args k (result +:+ lit).
Proof.
  induction lit as [|c lit IH]; intros rest args k result Hlit.
  - by rewrite sapp_nil_r.
  - cbn [string_forallb] in Hlit. apply andb_prop in Hlit as [Hc Hlit].
    unfold not_percent in Hc. apply negb_true_iff in Hc.
    rewrite sapp_cons. cbn [TroLogger.formatMessage_loop]. rewrite Hc.
    rewrite IH by done. by rewrite sapp_assoc.
Qed.

Lemma string_of_byte_length (c : ascii) :
  String.length (string_of_byte c) = ((if is_ascii c then 0 else 1) + 1)%nat.
Proof. unfold string_of_byte, is_ascii. by destruct (_ <? _)%nat. Qed.

Lemma length_sapp (s t : string) :
  String.length (s +:+ t) = (String.length s + String.length t)%nat.
Proof. induction s as [|c s IH]; [done|]. rewrite sapp_cons. simpl. by rewrite IH. Qed.

Lemma recode_length (s : string) :
  String.length (recode s) = (String.length s + high_bytes s)%nat.
Proof.
  induction s as [|c s IH]; [done|].
  cbn [recode high_bytes String.length].
  rewrite length_sapp, string_of_byte_length, IH. lia.
Qed.

Lemma recode_ascii (s : string) :
  recode s = s <-> string_forallb is_ascii s = true.
Proof.
  split.
  - intros Heq. apply (f_equal String.length) in Heq. rewrite recode_length in Heq.
    assert (Hh : high_bytes s = 0%nat) by lia. clear Heq.
    induction s as [|c s IH]; [done|].
    cbn [high_bytes string_forallb] in *.
    destruct (is_ascii c); [|simpl in Hh; lia]. by apply IH.
  - induction s as [|c s IH]; [done|].
    cbn [string_forallb recode]. intros [Hc Hs]%andb_prop.
    unfold string_of_byte. unfold is_ascii in Hc. rewrite Hc, IH by done. done.
Qed.

(** X5.  A format string without '%' comes back from logger.go's
    formatMessage unchanged, whatever its bytes and the arguments.  From
    part_001's it comes back with every byte converted on its own by
    string(b): unchanged exactly when the format is ASCII, and longer by one
    byte for each byte from 0x80 on otherwise, so that UTF-8 text is
    garbled. *)
Theorem formatMessage_literal (format : string) (args : list Value) :
  string_forallb not_percent format = true ->
  TroLogger.formatMessage format args = Ok format /\
  Trolog.formatMessage format args = Ok (recode format) /\
  String.length (recode format) = (String.length format + high_bytes format)%nat /\
  (recode format = format <-> string_forallb is_ascii format = true).
Proof.
  intros Hf. split; [|split; [|split]].
  - unfold TroLogger.formatMessage.
    rewrite <- (sapp_nil_r format) at 1. by rewrite trologger_loop_literal.
  - unfold Trolog.formatMessage.
    rewrite <- (sapp_nil_r format) at 1. by rewrite trolog_loop_literal.
  - apply recode_length.
  - apply recode_ascii.
Qed.

Lemma formatMessage_literal_witness :
  Trolog.formatMessage (String "195" (String "169" "te")) [] =
    Ok (String "195" (String "131" (String "194" (String "169" "te")))) /\
  TroLogger.formatMessage (String "195" (String "169" "te")) [] =
    Ok (String "195" (String "169" "te")).
Proof.
  destruct (formatMessage_literal (String "195" (String "169" "te")) [] eq_refl)
    as (Hg & Hl & _).
  split; [exact Hl|exact Hg].
Defined.

(** X6.  Behind a literal prefix, a placeholder without an argument panics
    with an index out of range and a %d (and, in part_001, a %f) with an
    argument of another type panics on the type assertion.  %s takes any
    value in part_001 but only a string in logger.go, and logger.go's %d
    panics with an index out of range also for an int that is present but
    longer than ten characters, the smallest int apart: for that one %d
    puts a lone '-' into the message. *)
Theorem formatMessage_placeholder_panics (lit rest : string) (v : Value) (args : list Value) :
  string_forallb not_percent lit = true ->
  (forall c, c = "s"%char \/ c = "d"%char \/ c = "f"%char ->
     Trolog.formatMessage (lit +:+ String "%" (String c rest)) [] = Panic IndexOutOfRange) /\
  (forall c, c = "s"%char \/ c = "d"%char ->
     TroLogger.formatMessage (lit +:+ String "%" (String c rest)) [] = Panic IndexOutOfRange) /\
  ((forall i, v <> VInt i) ->
     Trolog.formatMessage (lit +:+ String "%" (String "d" rest)) (v :: args) = Panic TypeAssertion /\
     TroLogger.formatMessage (lit +:+ String "%" (String "d" rest)) (v :: args) = Panic TypeAssertion) /\
  ((forall f, v <> VFloat f) ->
     Trolog.formatMessage (lit +:+ String "%" (String "f" rest)) (v :: args) = Panic TypeAssertion) /\
  ((forall s, v <> VString s) ->
     TroLogger.formatMessage (lit +:+ String "%" (String "s" rest)) (v :: args) = Panic TypeAssertion) /\
  (forall i, 10 ^ 10 <= i <= MaxInt64 \/ MinInt64 < i <= - 10 ^ 9 ->
     TroLogger.formatMessage (lit +:+ String "%" (String "d" rest)) (VInt i :: args)
       = Panic IndexOutOfRange) /\
  TroLogger.formatMessage (lit +:+ "%d") (VInt MinInt64 :: args) = Ok (lit +:+ "-").
Proof.
  intros Hlit. unfold Trolog.formatMessage, TroLogger.formatMessage.
  repeat split.
  - intros c [->|[->| ->]]; by rewrite trolog_loop_literal.
  - intros c [->| ->]; by rewrite trologger_loop_literal.
  - rewrite trolog_loop_literal by done. cbn. destruct v; try done. by destruct (H i).
  - rewrite trologger_loop_literal by done. cbn. destruct v; try done. by destruct (H i).
  - intros Hv. rewrite trolog_loop_literal by done. cbn. destruct v; try done.
    by destruct (Hv f).
  - intros Hv. rewrite trologger_loop_literal by done. cbn. destruct v; try done.
    by destruct (Hv s).
  - intros i Hi. rewrite trologger_loop_literal by done.
    cbn [TroLogger.formatMessage_loop]. cbn [Ascii.eqb Bool.eqb].
    cbn [index_arg lookup list_lookup mbind outcome_bind assert_int].
    destruct Hi as [Hi|Hi].
    + by rewrite intToString_too_long.
    + by rewrite intToString_too_long_negative.
  - rewrite trologger_loop_literal by done. reflexivity.
Qed.

Lemma formatMessage_placeholder_panics_witness :
  Trolog.formatMessage "n = %d" [VString "7"] = Panic TypeAssertion /\
  TroLogger.formatMessage "n = %s" [VInt 7] = Panic TypeAssertion.
Proof.
  destruct (formatMessage_placeholder_panics "n = " "" (VString "7") [] eq_refl)
    as (_ & _ & Hd & _).
  destruct (formatMessage_placeholder_panics "n = " "" (VInt 7) [] eq_refl)
    as (_ & _ & _ & _ & Hs & _).
  split.
  - apply Hd. discriminate.
  - apply Hs. discriminate.
Defined.

(** ** AddField *)

(** X7.  The logger that AddField returns and the state it leaves do not
    depend on the order in which the run time visits the entries of the
    source's field map.  Both variants. *)
Theorem AddField_ignores_iteration_order
    (l : loc) (key : string) (value : Value) (order order' : list nat) (st : State) :
  Trolog.AddField l key value order st = Trolog.AddField l key value order' st /\
  TroLogger.AddField l key value order st = TroLogger.AddField l key value order' st.
Proof.
  destruct (loggers st !! l) as [L|] eqn:HL.
  - by rewrite !(trolog_AddField_spec l L), !(trologger_AddField_spec l L).
  - unfold Trolog.AddField, TroLogger.AddField, deref. by rewrite HL.
Qed.

Lemma derive_logger_at st L key s base :
  logger_at base L st ->
  let new := (derive st L key s).1 in
  let st' := (derive st L key s).2 in
  logger_at base L st' /\
  new <> base /\
  logger_fields base st' = logger_fields base st /\
  logger_fields new st' = <[key := s]> (logger_fields base st) /\
  exists L', logger_at new L' st' /\
             Logger.level L' = Logger.level L /\
             Logger.output L' = Logger.output L /\
             Logger.file L' = Logger.file L /\
             Logger.colored L' = Logger.colored L /\
             (forall p L0, logger_at p L0 st -> logger_at p L0 st' /\
                           logger_fields p st' = logger_fields p st).
Proof.
  intros [HL Hm]. cbn zeta.
  destruct (derive_base st L key s base HL Hm) as (HL' & Hread & Hlg & Hmp & _).
  destruct (derive_new st L key s)
    as (Hfresh & L' & HnewL & Hlv & Hout & Hfile & Hcol & Hmfresh & Hnewf).
  assert (Hkeep : forall p L0, logger_at p L0 st ->
            logger_at p L0 (derive st L key s).2 /\
            logger_fields p (derive st L key s).2 = logger_fields p st).
  { intros p L0 [Hp Hpm].
    assert (Hp' : loggers (derive st L key s).2 !! p = Some L0)
      by (rewrite Hlg by eauto; done).
    assert (Hpm' : maps (derive st L key s).2 !! Logger.fields L0 = maps st !! Logger.fields L0)
      by (by apply Hmp).
    split; [split; [done|by rewrite Hpm']|].
    unfold logger_fields, read_map. by rewrite Hp', Hp, Hpm'. }
  destruct (Hkeep base L (conj HL Hm)) as [Hb1 Hb2].
  split; [done|]. split; [congruence|]. split; [done|].
  split.
  { unfold logger_fields at 1. rewrite HnewL, Hnewf.
    unfold logger_fields. by rewrite HL. }
  exists L'. split; [|done].
  split; [done|].
  unfold derive in HnewL |- *. cbn [fst snd loggers maps] in *.
  rewrite lookup_insert_eq in HnewL. injection HnewL as <-.
  cbn [Logger.fields]. rewrite lookup_insert_eq. eauto.
Qed.

(** X8.  AddField composes: of two derivations in a row the second logger
    has the source's entries with the first key set and then the second, the
    first logger keeps its own entries and the source keeps its.  So a key
    given twice has the later value in the last logger only, and two
    different keys may be given in either order.  (part_001; logger.go is
    the same when valueToString returns.) *)
Theorem AddField_chain
    (base : loc) (L : Logger) (k1 k2 : string) (v1 v2 : Value) (o1 o2 : list nat)
    (st : State) :
  logger_at base L st ->
  exists child st1 grandchild st2,
    Trolog.AddField base k1 v1 o1 st = Ok (child, st1) /\
    Trolog.AddField child k2 v2 o2 st1 = Ok (grandchild, st2) /\
    base <> child /\ base <> grandchild /\ child <> grandchild /\
    logger_fields grandchild st2 =
      <[k2 := Trolog.valueToString v2]>
        (<[k1 := Trolog.valueToString v1]> (logger_fields base st)) /\
    logger_fields child st2 = <[k1 := Trolog.valueToString v1]> (logger_fields base st) /\
    logger_fields base st2 = logger_fields base st /\
    (k1 = k2 ->
       logger_fields grandchild st2 !! k1 = Some (Trolog.valueToString v2) /\
       logger_fields child st2 !! k1 = Some (Trolog.valueToString v1)) /\
    (k1 <> k2 ->
       logger_fields grandchild st2 =
         <[k1 := Trolog.valueToString v1]>
           (<[k2 := Trolog.valueToString v2]> (logger_fields base st))).
Proof.
  intros Hbase.
  pose proof (derive_logger_at st L k1 (Trolog.valueToString v1) base Hbase) as H1.
  cbn zeta in H1.
  destruct (derive st L k1 (Trolog.valueToString v1)) as [child st1] eqn:Hd1.
  cbn [fst snd] in H1.
  destruct H1 as (Hbase1 & Hne1 & Hfb1 & Hfc1 & Lc & Hchild1 & _ & _ & _ & _ & _).
  pose proof (derive_logger_at st1 Lc k2 (Trolog.valueToString v2) child Hchild1) as H2.
  cbn zeta in H2.
  destruct (derive st1 Lc k2 (Trolog.valueToString v2)) as [grandchild st2] eqn:Hd2.
  cbn [fst snd] in H2.
  destruct H2 as (Hchild2 & Hne2 & Hfc2 & Hfg2 & Lg & Hgrand2 & _ & _ & _ & _ & Hkeep2).
  destruct (Hkeep2 base L Hbase1) as [Hbase2 Hfb2].
  exists child, st1, grandchild, st2.
  split. { rewrite (trolog_AddField_spec base L) by apply Hbase. by rewrite Hd1. }
  split. { rewrite (trolog_AddField_spec child Lc) by apply Hchild1. by rewrite Hd2. }
  assert (Hne3 : base <> grandchild).
  { intros <-. destruct Hbase1 as [Hb1 _].
    pose proof (derive_new st1 Lc k2 (Trolog.valueToString v2)) as [Hfresh _].
    rewrite Hd2 in Hfresh. cbn [fst] in Hfresh. congruence. }
  split; [done|]. split; [done|]. split; [done|].
  assert (Hg : logger_fields grandchild st2 =
               <[k2 := Trolog.valueToString v2]>
                 (<[k1 := Trolog.valueToString v1]> (logger_fields base st)))
    by (by rewrite Hfg2, Hfc1).
  assert (Hc : logger_fields child st2 =
               <[k1 := Trolog.valueToString v1]> (logger_fields base st))
    by (by rewrite Hfc2, Hfc1).
  split; [done|]. split; [done|]. split; [by rewrite Hfb2, Hfb1|].
  split.
  - intros <-. rewrite Hg, Hc. by rewrite !lookup_insert_eq.
  - intros Hk. rewrite Hg. by apply insert_insert_ne.
Qed.

Lemma AddField_chain_witness :
  logger_at 1%positive example_logger example_state /\
  exists child st1 grandchild st2,
    Trolog.AddField 1%positive "user" (VString "alice") [] example_state = Ok (child, st1) /\
    Trolog.AddField child "user" (VString "bob") [] st1 = Ok (grandchild, st2) /\
    logger_fields grandchild st2 !! "user" = Some "bob" /\
    logger_fields child st2 !! "user" = Some "alice" /\
    logger_fields 1%positive st2 = ∅.
Proof.
  assert (H : logger_at 1%positive example_logger example_state).
  { split; [reflexivity|by exists ∅]. }
  split; [exact H|].
  destruct (AddField_chain 1%positive example_logger "user" "user" (VString "alice")
              (VString "bob") [] [] example_state H)
    as (child & st1 & grandchild & st2 & H1 & H2 & _ & _ & _ & _ & _ & Hb & Hsame & _).
  exists child, st1, grandchild, st2.
  destruct (Hsame eq_refl) as [Hg Hc].
  split; [exact H1|]. split; [exact H2|]. split; [exact Hg|]. split; [exact Hc|].
  rewrite Hb. reflexivity.
Defined.

Lemma comma_insert (m : gmap string string) (key s : string) :
  comma (<[key := s]> m) ∅ = ",".
Proof.
  unfold comma.
  assert (Hs : size (<[key := s]> m) <> 0%nat).
  { intros Hz. apply map_size_empty_iff in Hz.
    by apply insert_non_empty in Hz. }
  destruct (Nat.ltb_spec 0 (size (<[key := s]> m))); [done|lia].
Qed.

Lemma fields_of_insert (m : gmap string string) (key s : string) (env : Env) :
  console_fields (<[key := s]> m) ∅ env ≡ₚ map_to_list (<[key := s]> m) /\
  file_fields (<[key := s]> m) ∅ env ≡ₚ map_to_list (<[key := s]> m) /\
  (m = ∅ -> console_fields (<[key := s]> m) ∅ env = [(key, s)] /\
            file_fields (<[key := s]> m) ∅ env = [(key, s)]).
Proof.
  unfold console_fields, file_fields. rewrite !range_empty, !app_nil_r.
  split; [apply range_Permutation|]. split; [apply range_Permutation|].
  intros ->. unfold range. rewrite insert_empty, map_to_list_singleton.
  by rewrite !shuffle_singleton.
Qed.

(** X9.  A logger derived by AddField lists, in every line it emits, each
    entry of the source's fields with the new key set, once each and in some
    order, behind one comma; derived from a logger without fields it ends
    its lines with [, key: "text"] and the newline.  (part_001.) *)
Theorem derived_logger_lists_every_field_once
    (base : loc) (L : Logger) (key : string) (value : Value) (order : list nat)
    (level : LogLevel) (message : string) (env : Env) (st : State) :
  logger_at base L st ->
  let text := Trolog.valueToString value in
  let logID := wrap32 (logIDCounter st + 1) in
  exists child st1 Lc st2 on_console on_file,
    Trolog.AddField base key value order st = Ok (child, st1) /\
    loggers st1 !! child = Some Lc /\
    Trolog.log child level message ∅ env st1 = Ok st2 /\
    emitted st1 st2 =
      file_part Lc (id_first_line logID (levelString level) (time_Now env) message ","
                      on_file) ++
      console_part Lc level
        (id_first_line logID (console_level level) (time_Now env) message "," on_console) /\
    on_console ≡ₚ map_to_list (<[key := text]> (logger_fields base st)) /\
    on_file ≡ₚ map_to_list (<[key := text]> (logger_fields base st)) /\
    (logger_fields base st = ∅ ->
       on_console = [(key, text)] /\ on_file = [(key, text)] /\
       fields_text [(key, text)] =
         " " +:+ key +:+ ": " +:+ String quote (text +:+ String quote "")).
Proof.
  intros Hbase text logID.
  pose proof (derive_logger_at st L key text base Hbase) as H1. cbn zeta in H1.
  pose proof (derive_base st L key text base (proj1 Hbase) (proj2 Hbase))
    as (_ & _ & _ & _ & Hc & _ & _).
  destruct (derive st L key text) as [child st1] eqn:Hd. cbn [fst snd] in *.
  destruct H1 as (_ & _ & _ & Hfc & Lc & [HLc HmLc] & _).
  assert (Hread : read_map (Logger.fields Lc) st1 = <[key := text]> (logger_fields base st)).
  { rewrite <- Hfc. unfold logger_fields. by rewrite HLc. }
  destruct (trolog_log_effect child Lc level message ∅ env st1 HLc)
    as (st2 & Hrun & Hid & _ & _ & Hem).
  destruct (fields_of_insert (logger_fields base st) key text env) as (Hpc & Hpf & Hone).
  exists child, st1, Lc, st2,
    (console_fields (<[key := text]> (logger_fields base st)) ∅ env),
    (file_fields (<[key := text]> (logger_fields base st)) ∅ env).
  split. { rewrite (trolog_AddField_spec base L) by apply Hbase. fold text. by rewrite Hd. }
  split; [done|]. split; [done|].
  split.
  { rewrite Hem, Hid, Hc, Hread, trolog_buildLogMessage_plain.
    unfold trolog_console_line. by rewrite comma_insert. }
  split; [done|]. split; [done|].
  intros Hempty. destruct (Hone Hempty) as [-> ->].
  split; [done|]. split; [done|].
  cbn [fields_text foldr]. unfold field_text. cbn [fst snd].
  rewrite sapp_nil_r. reflexivity.
Qed.

Lemma derived_logger_lists_every_field_once_witness :
  logger_at 1%positive example_logger example_state /\
  exists child st1 st2,
    Trolog.AddField 1%positive "user" (VString "alice") [] example_state = Ok (child, st1) /\
    Trolog.log child WarnLevel "oops" ∅ example_env st1 = Ok st2 /\
    to_file 7%nat (emitted st1 st2) =
      ["ID:1 WARN 2024-10-10T10:24:44+06:00 oops, user: " +:+
         String quote ("alice" +:+ String quote newline)].
Proof.
  assert (H : logger_at 1%positive example_logger example_state).
  { split; [reflexivity|by exists ∅]. }
  split; [exact H|].
  destruct (derived_logger_lists_every_field_once 1%positive example_logger "user"
              (VString "alice") [] WarnLevel "oops" example_env example_state H)
    as (child & st1 & Lc & st2 & kc & kf & Hadd & HLc & Hrun & Hem & _ & _ & Hone).
  destruct (Hone eq_refl) as (-> & -> & _).
  exists child, st1, st2. split; [exact Hadd|]. split; [exact Hrun|].
  rewrite Hem, to_file_app, to_file_console_part, app_nil_r.
  assert (Hf : Logger.file Lc = Some 7%nat).
  { rewrite (trolog_AddField_spec 1%positive example_logger) in Hadd by reflexivity.
    injection Hadd as <- <-. vm_compute in HLc. by injection HLc as <-. }
  rewrite (to_file_file_part 7%nat) by exact Hf.
  reflexivity.
Defined.

(** ** NewLogger *)

Lemma trolog_NewLogger_general levelStr output colored logFilePath os_OpenFile st :
  Trolog.NewLogger levelStr output colored logFilePath os_OpenFile st =
  let fields := fresh (dom (maps st)) in
  let l := fresh (dom (loggers st)) in
  let logFile := if String.eqb logFilePath "" then None else os_OpenFile logFilePath in
  (l, mkState (logIDCounter st) (bufferPool st)
        (<[l := Logger.mk (Trolog.logLevelFromString levelStr) output logFile colored fields]>
           (loggers st))
        (<[fields := ∅]> (maps st)) (written st)).
Proof. unfold Trolog.NewLogger. by destruct (String.eqb logFilePath ""). Qed.

Lemma new_logger_in_heap (L : Logger) (st : State) :
  Logger.fields L = fresh (dom (maps st)) ->
  let l := fresh (dom (loggers st)) in
  let st' := mkState (logIDCounter st) (bufferPool st) (<[l := L]> (loggers st))
               (<[Logger.fields L := ∅]> (maps st)) (written st) in
  logger_at l L st' /\
  loggers st !! l = None /\
  logger_fields l st' = ∅ /\
  (forall p L0, logger_at p L0 st ->
     logger_at p L0 st' /\ logger_fields p st' = logger_fields p st).
Proof.
  intros Hf. cbn zeta.
  assert (Hl : loggers st !! fresh (dom (loggers st)) = None)
    by apply not_elem_of_dom, is_fresh.
  assert (Hm : maps st !! Logger.fields L = None)
    by (rewrite Hf; apply not_elem_of_dom, is_fresh).
  split; [|split; [done|split]].
  - split; cbn [loggers maps]; rewrite lookup_insert_eq; eauto.
  - unfold logger_fields, read_map. cbn [loggers maps]. by rewrite !lookup_insert_eq.
  - intros p L0 [Hp [m0 Hpm]].
    assert (Hp' : <[fresh (dom (loggers st)) := L]> (loggers st) !! p = Some L0).
    { rewrite lookup_insert_ne; [done|]. intros <-. congruence. }
    assert (Hpm' : <[Logger.fields L := ∅]> (maps st) !! Logger.fields L0 = Some m0).
    { rewrite lookup_insert_ne; [done|]. intros Heq. rewrite Heq in Hm. congruence. }
    split; [split; cbn [loggers maps]; eauto|].
    unfold logger_fields, read_map. cbn [loggers maps]. by rewrite Hp', Hp, Hpm', Hpm.
Qed.

(** X10.  NewLogger makes a logger with an empty field store at an unused
    address, leaves every other logger, the sinks and the sequence counter
    as they are (a new logger goes on with the numbering of the process),
    and takes the file from os.OpenFile unless the path is empty.  When the
    file cannot be opened, part_001 makes the logger without a file, and
    none of its emissions writes to a file, while logger.go returns the
    error, makes no logger and changes nothing. *)
Theorem NewLogger_and_the_log_file
    (levelStr : string) (level : LogLevel) (output : Writer) (colored : bool)
    (logFilePath : string) (os_OpenFile : string -> option File) (st : State) :
  (let '(l, st') := Trolog.NewLogger levelStr output colored logFilePath os_OpenFile st in
   exists L,
     logger_at l L st' /\ loggers st !! l = None /\ logger_fields l st' = ∅ /\
     Logger.level L = Trolog.logLevelFromString levelStr /\
     Logger.output L = output /\ Logger.colored L = colored /\
     Logger.file L = (if String.eqb logFilePath "" then None else os_OpenFile logFilePath) /\
     logIDCounter st' = logIDCounter st /\ written st' = written st /\
     (forall p L0, logger_at p L0 st ->
        logger_at p L0 st' /\ logger_fields p st' = logger_fields p st) /\
     (os_OpenFile logFilePath = None ->
      forall level message env,
      exists st2, Trolog.log l level message ∅ env st' = Ok st2 /\
                  forall f, to_file f (emitted st' st2) = [])) /\
  (logFilePath <> "" -> os_OpenFile logFilePath = None ->
   TroLogger.NewLogger level output colored logFilePath os_OpenFile st =
     ((None, Some (TroLogger.PathError logFilePath)), st)) /\
  (logFilePath = "" \/ is_Some (os_OpenFile logFilePath) ->
   let '(r, st') := TroLogger.NewLogger level output colored logFilePath os_OpenFile st in
   exists l L,
     r = (Some l, None) /\
     logger_at l L st' /\ loggers st !! l = None /\ logger_fields l st' = ∅ /\
     Logger.level L = level /\ Logger.output L = output /\ Logger.colored L = colored /\
     Logger.file L = (if String.eqb logFilePath "" then None else os_OpenFile logFilePath) /\
     logIDCounter st' = logIDCounter st /\ written st' = written st).
Proof.
  split; [|split].
  - rewrite trolog_NewLogger_general. cbn zeta.
    set (L := Logger.mk _ _ _ _ _).
    destruct (new_logger_in_heap L st eq_refl) as (Hat & Hfresh & Hempty & Hkeep).
    exists L. repeat (split; [done|]).
    intros Hopen level' message env.
    match goal with
    | |- exists st2, Trolog.log ?l _ _ _ _ ?s = _ /\ _ =>
        destruct (trolog_log_effect l L level' message ∅ env s (proj1 Hat))
          as (st2 & Hrun & _ & _ & _ & Hem)
    end.
    exists st2. split; [exact Hrun|]. intros f. rewrite Hem.
    rewrite to_file_app, to_file_console_part, app_nil_r.
    unfold file_part, L. cbn [Logger.file]. rewrite Hopen. by destruct (String.eqb _ _).
  - intros Hpath Hopen. unfold TroLogger.NewLogger.
    apply String.eqb_neq in Hpath. by rewrite Hpath, Hopen.
  - intros Hok. unfold TroLogger.NewLogger.
    assert (Hopened :
      (if negb (String.eqb logFilePath "")
       then match os_OpenFile logFilePath with
            | Some f => inl (Some f)
            | None => inr (TroLogger.PathError logFilePath)
            end
       else inl None) =
      inl (if String.eqb logFilePath "" then None else os_OpenFile logFilePath)).
    { destruct (String.eqb_spec logFilePath "") as [->|Hne]; [done|].
      destruct Hok as [?|[f Hf]]; [done|]. by rewrite Hf. }
    rewrite Hopened. unfold make_map, alloc_logger.
    cbn [logIDCounter bufferPool loggers maps written].
    set (L := Logger.mk _ _ _ _ _).
    destruct (new_logger_in_heap L st eq_refl) as (Hat & Hfresh & Hempty & _).
    exists (fresh (dom (loggers st))), L. repeat (split; [done|]). done.
Qed.

Lemma NewLogger_and_the_log_file_witness :
  TroLogger.NewLogger InfoLevel 1%nat true "/var/log/app.log" (fun _ => None) example_state =
    ((None, Some (TroLogger.PathError "/var/log/app.log")), example_state).
Proof.
  apply (NewLogger_and_the_log_file "info" InfoLevel 1%nat true "/var/log/app.log"
           (fun _ => None) example_state).
  - discriminate.
  - reflexivity.
Defined.

(** ** Levels *)



(** ** The buffer pool and the counter *)

Lemma tail_length {A : Type} (l : list A) : length (tail l) = (length l - 1)%nat.
Proof. destruct l; simpl; lia. Qed.

(** X12.  The line of an emission does not depend on what the pooled
    buffer held before: with any other content of the pool the same bytes
    are written and the same ID is taken.  The buffer goes back to the pool
    holding the console line, also when the level filter kept the line from
    the console, and the pool never grows beyond one buffer by emissions
    alone.  Both variants. *)
Theorem buffer_pool_reuse
    (l : loc) (L : Logger) (level : LogLevel) (message : string)
    (extraFields : gmap string string) (env : Env) (st : State) (pool : list string) :
  loggers st !! l = Some L ->
  let logID := wrap32 (logIDCounter st + 1) in
  (exists st' st'',
      Trolog.log l level message extraFields env st = Ok st' /\
      Trolog.log l level message extraFields env (with_pool pool st) = Ok st'' /\
      written st'' = written st' /\ logIDCounter st'' = logIDCounter st' /\
      head (bufferPool st') =
        Some (trolog_console_line level (time_Now env) message
                (read_map (Logger.fields L) st) extraFields logID env) /\
      length (bufferPool st') = Nat.max 1 (length (bufferPool st))) /\
  (exists st' st'',
      TroLogger.log l level message extraFields env st = Ok st' /\
      TroLogger.log l level message extraFields env (with_pool pool st) = Ok st'' /\
      written st'' = written st' /\ logIDCounter st'' = logIDCounter st' /\
      head (bufferPool st') =
        Some (trologger_console_line level (time_Now env) message
                (read_map (Logger.fields L) st) extraFields logID env) /\
      length (bufferPool st') = Nat.max 1 (length (bufferPool st))).
Proof.
  intros HL logID.
  assert (HL' : loggers (with_pool pool st) !! l = Some L) by done.
  split.
  - do 2 eexists.
    split; [by apply trolog_log_spec|]. split; [by apply trolog_log_spec|].
    cbn zeta. unfold after_log, with_pool, read_map.
    cbn [written logIDCounter bufferPool maps head length].
    repeat split. rewrite tail_length. lia.
  - do 2 eexists.
    split; [by apply trologger_log_spec|]. split; [by apply trologger_log_spec|].
    cbn zeta. unfold after_log, with_pool, read_map.
    cbn [written logIDCounter bufferPool maps head length].
    repeat split. rewrite tail_length. lia.
Qed.

Lemma buffer_pool_reuse_witness :
  loggers example_state !! 1%positive = Some example_logger /\
  exists st' st'',
    Trolog.log 1%positive DebugLevel "x" ∅ example_env example_state = Ok st' /\
    Trolog.log 1%positive DebugLevel "x" ∅ example_env
      (with_pool ["stale bytes"; "more"] example_state) = Ok st'' /\
    written st'' = written st'.
Proof.
  split; [reflexivity|].
  destruct (buffer_pool_reuse 1%positive example_logger DebugLevel "x" ∅ example_env
              example_state ["stale bytes"; "more"] eq_refl)
    as [(st' & st'' & H1 & H2 & Hw & _) _].
  exists st', st''. split; [exact H1|]. split; [exact H2|exact Hw].
Defined.

Lemma wrap32_MaxInt32 : wrap32 (MaxInt32 + 1) = MinInt32.
Proof. reflexivity. Qed.

(** X13.  The sequence ID is a signed 32-bit number: the emission that
    follows ID 2147483647 takes the ID -2147483648, and its lines carry it
    with the minus sign, [ID:-2147483648].  Both variants. *)
Theorem sequence_id_wraps_to_negative
    (l : loc) (L : Logger) (level : LogLevel) (message : string)
    (extraFields : gmap string string) (env : Env) (st : State) :
  loggers st !! l = Some L ->
  logIDCounter st = MaxInt32 ->
  let fields := read_map (Logger.fields L) st in
  (exists st',
      Trolog.log l level message extraFields env st = Ok st' /\
      logIDCounter st' = MinInt32 /\
      emitted st st' =
        file_part L ("ID:-2147483648 " +:+ levelString level +:+ " " +:+ time_Now env
                       +:+ " " +:+ message +:+ comma fields extraFields
                       +:+ fields_text (file_fields fields extraFields env) +:+ newline) ++
        console_part L level
          ("ID:-2147483648 " +:+ console_level level +:+ " " +:+ time_Now env
             +:+ " " +:+ message +:+ comma fields extraFields
             +:+ fields_text (console_fields fields extraFields env) +:+ newline)) /\
  (exists st',
      TroLogger.log l level message extraFields env st = Ok st' /\
      logIDCounter st' = MinInt32 /\
      emitted st st' =
        file_part L (levelString level +:+ " " +:+ time_Now env +:+ " ID:-2147483648 "
                       +:+ message +:+ comma fields extraFields
                       +:+ fields_text (file_fields fields extraFields env) +:+ newline) ++
        console_part L level
          (console_level level +:+ " " +:+ time_Now env +:+ " ID:-2147483648 "
             +:+ message +:+ comma fields extraFields
             +:+ fields_text (console_fields fields extraFields env) +:+ newline)).
Proof.
  intros HL Hc fields. split.
  - destruct (trolog_log_effect l L level message extraFields env st HL)
      as (st' & Hrun & Hid & _ & _ & Hem).
    rewrite Hc, wrap32_MaxInt32 in Hid.
    exists st'. split; [exact Hrun|]. split; [exact Hid|].
    rewrite Hem, Hid, trolog_buildLogMessage_plain.
    unfold trolog_console_line, id_first_line. reflexivity.
  - destruct (trologger_log_effect l L level message extraFields env st HL)
      as (st' & Hrun & Hid & _ & _ & Hem).
    rewrite Hc, wrap32_MaxInt32 in Hid.
    exists st'. split; [exact Hrun|]. split; [exact Hid|].
    rewrite Hem, Hid, trologger_buildLogMessage_plain.
    unfold trologger_console_line, level_first_line. reflexivity.
Qed.


Lemma sequence_id_wraps_to_negative_witness :
  loggers last_id_state !! 1%positive = Some example_logger /\
  logIDCounter last_id_state = MaxInt32 /\
  exists st',
    Trolog.log 1%positive InfoLevel "x" ∅ example_env last_id_state = Ok st' /\
    logIDCounter st' = -2147483648.
Proof.
  split; [reflexivity|]. split; [reflexivity|].
  destruct (sequence_id_wraps_to_negative 1%positive example_logger InfoLevel "x" ∅
              example_env last_id_state eq_refl eq_refl)
    as [(st' & Hrun & Hid & _) _].
  exists st'. split; [exact Hrun|exact Hid].
Defined.

(** ** Close *)

(** X14.  Close returns nil and closes nothing for a logger without a
    file.  For a logger with a file it closes the file and returns the
    operating system's answer; the logger that AddField derives holds the
    same file, so closing through either logger closes it for both, and any
    further Close, through either, returns the error of a file already
    closed. *)
Theorem Close_and_the_shared_file
    (base : loc) (L : Logger) (key : string) (value : Value) (order : list nat)
    (os_close : File -> option os_error) (st : State) (closed : gset File) :
  logger_at base L st ->
  (Logger.file L = None -> Close base os_close st closed = Ok (None, closed)) /\
  (forall f, Logger.file L = Some f -> f ∉ closed ->
     Close base os_close st closed = Ok (os_close f, {[f]} ∪ closed) /\
     Close base os_close st ({[f]} ∪ closed) = Ok (Some ErrClosed, {[f]} ∪ closed) /\
     exists child st1,
       Trolog.AddField base key value order st = Ok (child, st1) /\
       child <> base /\
       Close child os_close st1 closed = Ok (os_close f, {[f]} ∪ closed) /\
       Close child os_close st1 ({[f]} ∪ closed) = Ok (Some ErrClosed, {[f]} ∪ closed) /\
       Close base os_close st1 ({[f]} ∪ closed) = Ok (Some ErrClosed, {[f]} ∪ closed)).
Proof.
  intros Hbase. split.
  - intros Hf. unfold Close, deref. rewrite (proj1 Hbase). cbn [mbind outcome_bind].
    by rewrite Hf.
  - intros f Hf Hnot.
    assert (Hclose : forall l st0 L0, loggers st0 !! l = Some L0 -> Logger.file L0 = Some f ->
              Close l os_close st0 closed = Ok (os_close f, {[f]} ∪ closed) /\
              Close l os_close st0 ({[f]} ∪ closed) = Ok (Some ErrClosed, {[f]} ∪ closed)).
    { intros l st0 L0 Hl Hf0. unfold Close, deref. rewrite Hl. cbn [mbind outcome_bind].
      rewrite Hf0. unfold File_Close.
      rewrite decide_False by done. rewrite decide_True by set_solver. done. }
    destruct (Hclose base st L (proj1 Hbase) Hf) as [Hc1 Hc2].
    split; [done|]. split; [done|].
    pose proof (derive_logger_at st L key (Trolog.valueToString value) base Hbase) as Hd.
    cbn zeta in Hd.
    destruct (derive st L key (Trolog.valueToString value)) as [child st1] eqn:Hdv.
    cbn [fst snd] in Hd.
    destruct Hd as ([HL1 _] & Hne & _ & _ & Lc & [HLc _] & _ & _ & Hfile & _).
    exists child, st1.
    split. { rewrite (trolog_AddField_spec base L) by apply Hbase. by rewrite Hdv. }
    split; [done|].
    destruct (Hclose child st1 Lc HLc ltac:(congruence)) as [Hc3 Hc4].
    destruct (Hclose base st1 L HL1 Hf) as [_ Hc5].
    done.
Qed.

Lemma Close_and_the_shared_file_witness :
  logger_at 1%positive example_logger example_state /\
  Close 1%positive (fun _ => None) example_state ∅ = Ok (None, {[7%nat]} ∪ ∅) /\
  Close 1%positive (fun _ => None) example_state ({[7%nat]} ∪ ∅) =
    Ok (Some ErrClosed, {[7%nat]} ∪ ∅).
Proof.
  assert (H : logger_at 1%positive example_logger example_state).
  { split; [reflexivity|by exists ∅]. }
  split; [exact H|].
  destruct (Close_and_the_shared_file 1%positive example_logger "k" VOther []
              (fun _ => None) example_state ∅ H) as [_ Hf].
  destruct (Hf 7%nat eq_refl) as (H1 & H2 & _).
  - apply not_elem_of_empty.
  - split; [exact H1|exact H2].
Defined.

(** ** The two variants side by side *)

Lemma short_value_stringifies (v : Value) :
  short_value v -> TroLogger.valueToString v = Ok (Trolog.valueToString v).
Proof.
  destruct v as [s|i|f|b|]; cbn [short_value TroLogger.valueToString Trolog.valueToString];
    try done.
  - apply intToString_decimal.
  - unfold TroLogger.floatToString, Trolog.floatToString.
    intros [Hz|[Hi Hd]]; [by rewrite Hz|].
    destruct (f64_eqb f (S754_zero false)); [done|].
    rewrite (intToString_decimal _ Hi). cbn [mbind outcome_bind].
    rewrite (intToString_decimal _ Hd). cbn [mbind outcome_bind]. done.
Qed.

(** X15.  On every string, boolean and value of an unsupported type, on
    every int of at most ten characters and on every float whose integer
    part and hundredths are such ints, logger.go's valueToString returns
    what part_001's returns, and AddField of logger.go does exactly what
    AddField of part_001 does. *)
Theorem variants_stringify_alike (v : Value) :
  short_value v ->
  TroLogger.valueToString v = Ok (Trolog.valueToString v) /\
  forall l key order st,
    TroLogger.AddField l key v order st = Trolog.AddField l key v order st.
Proof.
  intros Hv. pose proof (short_value_stringifies v Hv) as Hs.
  split; [done|]. intros l key order st.
  destruct (loggers st !! l) as [L|] eqn:HL.
  - by rewrite (trolog_AddField_spec l L), (trologger_AddField_spec l L), Hs.
  - unfold Trolog.AddField, TroLogger.AddField, deref. by rewrite HL.
Qed.

Lemma variants_stringify_alike_witness :
  short_value (VFloat (f64_lit 3146 3)) /\
  TroLogger.valueToString (VFloat (f64_lit 3146 3)) = Ok "3.14".
Proof.
  assert (H : short_value (VFloat (f64_lit 3146 3))).
  { right. split; vm_compute; split; reflexivity. }
  split; [exact H|]. exact (proj1 (variants_stringify_alike _ H)).
Defined.

Lemma formats_weaken verb verb' (plain plain' : ascii -> bool) format args out :
  (forall c v s, verb c v = Some s -> verb' c v = Some s) ->
  (forall c, plain c = true -> plain' c = true) ->
  formats verb plain format args out -> formats verb' plain' format args out.
Proof.
  intros Hverb Hplain. induction 1; [constructor|constructor| |].
  - apply formats_char; auto.
  - apply formats_verb; auto.
Qed.

Lemma common_verb_trolog c v s : common_verb c v = Some s -> trolog_verb c v = Some s.
Proof.
  unfold common_verb, trolog_verb.
  destruct (Ascii.eqb c "s"); [by destruct v|].
  destruct (Ascii.eqb c "d"); [|done].
  destruct v; try done. by destruct (_ && _).
Qed.

Lemma common_verb_trologger c v s : common_verb c v = Some s -> trologger_verb c v = Some s.
Proof.
  unfold common_verb, trologger_verb.
  destruct (Ascii.eqb c "s"); [by destruct v|].
  destruct (Ascii.eqb c "d"); [|done].
  destruct v as [|i| | |]; try done.
  destruct (Z.ltb_spec (- 10 ^ 9) i), (Z.ltb_spec i (10 ^ 10)); try done.
  cbn [andb]. intros [= <-]. by rewrite intToString_decimal.
Qed.

(** X16.  On an ASCII format string whose placeholders are %s for a string
    and %d for an int of at most ten characters, each '%' starting a
    placeholder or ending the string, the formatMessage of logger.go and
    that of part_001 return the same message. *)
Theorem variants_format_alike (format : string) (args : list Value) (out : string) :
  formats common_verb is_ascii format args out ->
  Trolog.formatMessage format args = Ok out /\
  TroLogger.formatMessage format args = Ok out.
Proof.
  intros Hf. split.
  - apply (trolog_formatMessage_loop_formats format args out); [|done].
    eapply formats_weaken; [| |exact Hf]; auto using common_verb_trolog.
  - apply (trologger_formatMessage_loop_formats format args out); [|done].
    eapply formats_weaken; [| |exact Hf]; auto using common_verb_trologger.
Qed.

Lemma variants_format_alike_witness :
  Trolog.formatMessage "%s=%d%" [VString "load"; VInt 50] = Ok "load=50%" /\
  TroLogger.formatMessage "%s=%d%" [VString "load"; VInt 50] = Ok "load=50%".
Proof.
  apply (variants_format_alike "%s=%d%" [VString "load"; VInt 50] "load=50%").
  apply (formats_verb _ _ "s"%char (VString "load") "load" "=%d%" [VInt 50] "=50%");
    [reflexivity|].
  apply formats_char; [discriminate|reflexivity|].
  apply (formats_verb _ _ "d"%char (VInt 50) "50" "%" [] "%"); [reflexivity|].
  apply formats_last_percent.
Defined.
